(** * NAI Launcher, Windows runner: single-instance protocol and native bridge

    A shallow embedding of [windows/runner/main.cpp] and
    [windows/runner/flutter_window.cpp].  The C++ code is a thin layer over
    Win32 and the Flutter embedder, so the embedding has two layers:

    - a small model of the Win32 objects the code touches (the kernel's table
      of named mutexes, the desktop's top-level windows, the thread's
      last-error value, the UTF-16 to UTF-8 conversion), written from the
      documented behaviour of each call;
    - the functions of the two source files, written over that model with the
      control flow of the C++ text.

    Nullable handles ([HWND], [HANDLE]) are [option Z]; [None] is [nullptr].
    Wide strings are lists of UTF-16 code units, UTF-8 strings lists of
    bytes, both as [Z]. *)

From Stdlib Require Import ZArith List String Ascii Lia Bool.
From stdpp Require Import base gmap sets list strings sorting.

(** ** Wide strings *)

Module WStr.

(** The wide literal [L"..."] of an ASCII text: one code unit per character. *)
Fixpoint L (s : string) : list Z :=
  match s with
  | EmptyString => []
  | String a s' => Z.of_nat (nat_of_ascii a) :: L s'
  end.

(** What a [const wchar_t*] denotes: the code units before the first NUL. *)
Fixpoint c_str (buf : list Z) : list Z :=
  match buf with
  | [] => []
  | c :: rest => if (c =? 0)%Z then [] else c :: c_str rest
  end.

(** [starts_with n h]: the text [h] begins with the text [n], code unit by
    code unit (no case folding). *)
Fixpoint starts_with (n h : list Z) : bool :=
  match n, h with
  | [], _ => true
  | _ :: _, [] => false
  | a :: n', b :: h' => (a =? b)%Z && starts_with n' h'
  end.

(** The offset of the first occurrence of [n] in [h], if there is one. *)
Fixpoint find_first (h n : list Z) : option nat :=
  if starts_with n h then Some 0
  else match h with
       | [] => None
       | _ :: h' => S <$> find_first h' n
       end.

(** [wcsstr(haystack, needle)] on a NUL-terminated buffer and a literal: the
    offset of the match within [haystack] plays the part of the returned
    pointer, [None] of the null pointer. *)
Definition wcsstr (haystack needle : list Z) : option nat :=
  find_first (c_str haystack) needle.

(** [std::wstring::operator<]: lexicographic on code units, a proper prefix
    first. *)
Fixpoint wstring_lt (a b : list Z) : bool :=
  match a, b with
  | _, [] => false
  | [], _ :: _ => true
  | x :: a', y :: b' =>
      if (x <? y)%Z then true
      else if (y <? x)%Z then false
      else wstring_lt a' b'
  end.

Definition wlt : relation (list Z) := λ a b, wstring_lt a b = true.

(** [t] occurs in [s] at offset [i]. *)
Definition occurs_at (t s : list Z) (i : nat) : Prop :=
  ∃ pre post, s = pre ++ t ++ post ∧ length pre = i.

(** [t] is a substring of [s]. *)
Definition contains (t s : list Z) : Prop := ∃ i, occurs_at t s i.

End WStr.

(** ** The Win32 objects the runner touches *)

Module Win32.
Import WStr.

Definition ERROR_SUCCESS : Z := 0.
Definition ERROR_ACCESS_DENIED : Z := 5.
Definition ERROR_NOT_ENOUGH_MEMORY : Z := 8.
Definition ERROR_ALREADY_EXISTS : Z := 183.
Definition EXIT_SUCCESS : Z := 0.
Definition EXIT_FAILURE : Z := 1.
Definition WM_FONTCHANGE : Z := 0x001D.
Definition WM_USER : Z := 0x0400.
Definition SW_RESTORE : Z := 9.

(** *** Named mutexes

    The kernel's table of named mutexes of the session: each existing name
    with the number of handles open on it.  An object exists while a handle
    is open. *)

(** [CreateMutex(nullptr, TRUE, name)], one atomic system call.  [failure]
    is what the system decides for this call: [Some e] when it cannot give a
    handle (out of resources, access denied) and reports the last-error [e];
    [None] when it hands out [fresh].  With a handle the last-error is
    [ERROR_ALREADY_EXISTS] when the name existed before the call and
    [ERROR_SUCCESS] when the call created it.  The result is the new table,
    the returned handle and the thread's last-error value. *)
Definition CreateMutex (k : gmap (list Z) nat) (failure : option Z) (fresh : Z)
    (name : list Z) : gmap (list Z) nat * option Z * Z :=
  match failure with
  | Some e => (k, None, e)
  | None =>
      match k !! name with
      | Some n => (<[name := S n]> k, Some fresh, ERROR_ALREADY_EXISTS)
      | None => (<[name := 1%nat]> k, Some fresh, ERROR_SUCCESS)
      end
  end.

(** [CloseHandle] on a handle of the mutex [name]: the last close destroys
    the object. *)
Definition CloseHandle (k : gmap (list Z) nat) (name : list Z) : gmap (list Z) nat :=
  match k !! name with
  | Some (S (S n)) => <[name := S n]> k
  | Some _ => delete name k
  | None => k
  end.

(** *** Top-level windows *)

Record MSG := { message : Z; wParam : Z; lParam : Z }.

(** A top-level window as the runner can observe or change it: its caption,
    whether it is minimized, the messages posted to its queue and not yet
    taken out, and the messages its window procedure has been run on. *)
Record Window := {
  wnd_text : list Z;
  wnd_iconic : bool;
  wnd_queue : list MSG;
  wnd_handled : list MSG
}.

(** The desktop: the top-level windows in the order [FindWindowEx] yields
    them, the window behind each handle, the foreground window, and whether
    the system lets this process change the foreground. *)
Record Desktop := {
  zorder : list Z;
  windows : gmap Z Window;
  foreground : option Z;
  foreground_allowed : bool
}.

Definition set_windows (d : Desktop) (ws : gmap Z Window) : Desktop :=
  {| zorder := zorder d; windows := ws; foreground := foreground d;
     foreground_allowed := foreground_allowed d |}.

(** [GetWindowText(hwnd, buf, nMaxCount)]: the buffer afterwards, as far as
    it is defined: at most [nMaxCount - 1] code units of the caption and the
    terminating NUL; a handle with no window behind it gives the empty text. *)
Definition GetWindowText (d : Desktop) (hwnd : Z) (nMaxCount : Z) : list Z :=
  match windows d !! hwnd with
  | Some w => take (Z.to_nat (nMaxCount - 1)) (wnd_text w) ++ [0%Z]
  | None => [0%Z]
  end.

(** The title of a window as a C string reads it; a handle with no window
    behind it has the empty title. *)
Definition caption (d : Desktop) (hwnd : Z) : list Z :=
  match windows d !! hwnd with
  | Some w => c_str (wnd_text w)
  | None => []
  end.

Definition IsIconic (d : Desktop) (hwnd : Z) : bool :=
  match windows d !! hwnd with
  | Some w => wnd_iconic w
  | None => false
  end.

(** [ShowWindow(hwnd, nCmdShow)]; only [SW_RESTORE] is used by the runner:
    a minimized window is no longer minimized.  The call also activates the
    window; the change of Z order and the activation messages that come with
    it are not followed here: [zorder] stays the order the scan saw, and
    [wnd_handled] counts the messages this process sends. *)
Definition ShowWindow (d : Desktop) (hwnd : Z) (nCmdShow : Z) : Desktop :=
  if (nCmdShow =? SW_RESTORE)%Z then
    set_windows d (alter (λ w, {| wnd_text := wnd_text w; wnd_iconic := false;
                                  wnd_queue := wnd_queue w;
                                  wnd_handled := wnd_handled w |}) hwnd (windows d))
  else d.

(** [SetForegroundWindow(hwnd)]: honoured only when the system allows this
    process to take the foreground and the window exists.  Of its effects
    only the new foreground window is followed; the move of the window to the
    top of the Z order and the activation messages to it and to the window
    that loses the foreground are not. *)
Definition SetForegroundWindow (d : Desktop) (hwnd : Z) : Desktop :=
  if foreground_allowed d && bool_decide (is_Some (windows d !! hwnd)) then
    {| zorder := zorder d; windows := windows d; foreground := Some hwnd;
       foreground_allowed := foreground_allowed d |}
  else d.

(** [SendMessage(hwnd, Msg, wParam, lParam)]: calls the window procedure of
    the window and returns only once that procedure has processed the
    message; nothing is left in the queue.  On a handle with no window the
    call fails and changes nothing. *)
Definition SendMessage (d : Desktop) (hwnd : Z) (m : MSG) : Desktop :=
  set_windows d (alter (λ w, {| wnd_text := wnd_text w; wnd_iconic := wnd_iconic w;
                                wnd_queue := wnd_queue w;
                                wnd_handled := wnd_handled w ++ [m] |}) hwnd (windows d)).

(** [PostMessage(hwnd, Msg, wParam, lParam)]: appends the message to the
    queue of the window and returns at once.  The runner does not call it; it
    is here as the asynchronous counterpart of [SendMessage]. *)
Definition PostMessage (d : Desktop) (hwnd : Z) (m : MSG) : Desktop :=
  set_windows d (alter (λ w, {| wnd_text := wnd_text w; wnd_iconic := wnd_iconic w;
                                wnd_queue := wnd_queue w ++ [m];
                                wnd_handled := wnd_handled w |}) hwnd (windows d)).

(** *** UTF-16 to UTF-8

    [WideCharToMultiByte(CP_UTF8, 0, src, -1, ...)] reads [src] up to its
    NUL.  A high surrogate followed by a low one is one supplementary code
    point; with [dwFlags = 0] any other surrogate is replaced by U+FFFD. *)

Definition is_high_surrogate (u : Z) : bool := ((0xD800 <=? u) && (u <? 0xDC00))%Z.
Definition is_low_surrogate (u : Z) : bool := ((0xDC00 <=? u) && (u <? 0xE000))%Z.

Fixpoint utf16_decode (ws : list Z) : list Z :=
  match ws with
  | [] => []
  | u :: rest =>
      if is_high_surrogate u then
        match rest with
        | v :: rest' =>
            if is_low_surrogate v
            then (0x10000 + (u - 0xD800) * 0x400 + (v - 0xDC00))%Z :: utf16_decode rest'
            else 0xFFFD%Z :: utf16_decode rest
        | [] => [0xFFFD%Z]
        end
      else if is_low_surrogate u then 0xFFFD%Z :: utf16_decode rest
      else u :: utf16_decode rest
  end.

(** The UTF-8 bytes of one code point (the shifts and masks of the encoding
    written as quotients and remainders). *)
Definition utf8_encode (cp : Z) : list Z :=
  (if cp <? 0x80 then [cp]
   else if cp <? 0x800 then [0xC0 + cp / 0x40; 0x80 + cp mod 0x40]
   else if cp <? 0x10000 then
     [0xE0 + cp / 0x1000; 0x80 + (cp / 0x40) mod 0x40; 0x80 + cp mod 0x40]
   else
     [0xF0 + cp / 0x40000; 0x80 + (cp / 0x1000) mod 0x40;
      0x80 + (cp / 0x40) mod 0x40; 0x80 + cp mod 0x40])%Z.

Definition utf8_of_wide (src : list Z) : list Z :=
  concat (map utf8_encode (utf16_decode (c_str src))).

(** The call with a null output buffer: the number of bytes the conversion
    needs, the terminating NUL included. *)
Definition WideCharToMultiByte_size (src : list Z) : Z :=
  (Z.of_nat (length (utf8_of_wide src)) + 1)%Z.

(** The call with an output buffer of [cbMultiByte] bytes: what it writes. *)
Definition WideCharToMultiByte_fill (src : list Z) (cbMultiByte : Z) : list Z :=
  take (Z.to_nat cbMultiByte) (utf8_of_wide src ++ [0%Z]).

(** A text whose every code unit is a 16-bit value and whose surrogates come
    in high-low pairs. *)
Fixpoint wellformed_utf16 (ws : list Z) : bool :=
  match ws with
  | [] => true
  | u :: rest =>
      ((0 <=? u) && (u <? 0x10000))%Z &&
      if is_high_surrogate u then
        match rest with
        | v :: rest' => is_low_surrogate v && wellformed_utf16 rest'
        | [] => false
        end
      else negb (is_low_surrogate u) && wellformed_utf16 rest
  end.

(** A code unit that is a character by itself: a 16-bit value that is no
    surrogate. *)
Definition is_bmp_scalar (u : Z) : bool :=
  ((0 <=? u) && (u <? 0x10000))%Z && negb (is_high_surrogate u)
  && negb (is_low_surrogate u).

(** A 7-bit character other than NUL. *)
Definition is_ascii (u : Z) : bool := ((0 <? u) && (u <? 0x80))%Z.

End Win32.

(** ** main.cpp *)

Module Main.
Import WStr Win32.

Definition kSingleInstanceMutexName : list Z := L "NAI_Launcher_SingleInstance_Mutex".
Definition kWakeUpMessage : Z := (WM_USER + 1)%Z.

(** The [while] loop of [FindExistingFlutterWindow] over the handles that
    successive [FindWindowEx(nullptr, hwnd, nullptr, nullptr)] calls yield
    before the null handle.  [fragment] is the literal given to [wcsstr]. *)
Fixpoint scan_windows (d : Desktop) (fragment : list Z) (enum : list Z) : option Z :=
  match enum with
  | [] => None
  | hwnd :: rest =>
      let title := GetWindowText d hwnd 256 in
      match wcsstr title fragment with
      | Some _ => Some hwnd
      | None => scan_windows d fragment rest
      end
  end.

(** The locator for an arbitrary fragment. *)
Definition FindByTitleContains (fragment : list Z) (d : Desktop) : option Z :=
  scan_windows d fragment (zorder d).

(** The source fixes the fragment. *)
Definition FindExistingFlutterWindow (d : Desktop) : option Z :=
  FindByTitleContains (L "NAI Launcher") d.

(** [r] is the first element of [enum] with [P], or [None] when [enum] has
    none. *)
Definition first_such (P : Z → Prop) (enum : list Z) (r : option Z) : Prop :=
  match r with
  | Some h => ∃ pre post, enum = pre ++ h :: post ∧ P h ∧ ∀ h', h' ∈ pre → ¬ P h'
  | None => ∀ h, h ∈ enum → ¬ P h
  end.

Definition wake_msg : MSG := {| message := kWakeUpMessage; wParam := 0; lParam := 0 |}.

Definition WakeUpExistingWindow (d : Desktop) : Desktop :=
  match FindExistingFlutterWindow d with
  | Some existing_window =>
      let d1 := if IsIconic d existing_window
                then ShowWindow d existing_window SW_RESTORE else d in
      let d2 := SetForegroundWindow d1 existing_window in
      SendMessage d2 existing_window wake_msg
  | None => d
  end.

(** Two ways a message [m] can have reached the window [hwnd] between the
    desktops [d] and [d']: left in its queue for its thread to take out later,
    or already run through its window procedure. *)
Definition queued_on_return (d d' : Desktop) (hwnd : Z) (m : MSG) : Prop :=
  ∃ w w', windows d !! hwnd = Some w ∧ windows d' !! hwnd = Some w' ∧
          wnd_queue w' = wnd_queue w ++ [m] ∧ wnd_handled w' = wnd_handled w.

Definition processed_on_return (d d' : Desktop) (hwnd : Z) (m : MSG) : Prop :=
  ∃ w w', windows d !! hwnd = Some w ∧ windows d' !! hwnd = Some w' ∧
          wnd_queue w' = wnd_queue w ∧ wnd_handled w' = wnd_handled w ++ [m].

(** What the environment decides during one run of [wWinMain]. *)
Record StartupEnv := {
  attach_console_ok : bool;
  debugger_present : bool;
  mutex_failure : option Z;
  mutex_handle : Z;
  window_create_ok : bool;
  pending_messages : list MSG
}.

(** The calls of [wWinMain] that act on the world outside the process, in
    program order. *)
Inductive Event :=
  | EvCreateAndAttachConsole
  | EvCreateMutex (name : list Z)
  | EvWakeUpExistingWindow
  | EvCloseHandle (h : Z)
  | EvCoInitializeEx
  | EvWindowCreate (title : list Z) (ok : bool)
  | EvSetQuitOnClose
  | EvGetMessage (got : option MSG)
  | EvTranslateMessage (m : MSG)
  | EvDispatchMessage (m : MSG)
  | EvCoUninitialize.

(** The message loop on a run in which [GetMessage] returns the messages
    [msgs] and then reports [WM_QUIT]. *)
Fixpoint message_loop (msgs : list MSG) : list Event :=
  match msgs with
  | [] => [EvGetMessage None]
  | m :: rest =>
      EvGetMessage (Some m) :: EvTranslateMessage m :: EvDispatchMessage m
        :: message_loop rest
  end.

Record Outcome := {
  exit_code : Z;
  trace : list Event;
  kernel_after : gmap (list Z) nat;
  desktop_after : Desktop
}.

(** Lines 50 to 52: a console is created only when none can be attached
    and a debugger is present. *)
Definition console_events (env : StartupEnv) : list Event :=
  if negb (attach_console_ok env) && debugger_present env
  then [EvCreateAndAttachConsole] else [].

Definition wWinMain (env : StartupEnv) (k : gmap (list Z) nat) (d : Desktop) : Outcome :=
  let console := console_events env in
  let '(k1, single_instance_mutex, last_error) :=
    CreateMutex k (mutex_failure env) (mutex_handle env) kSingleInstanceMutexName in
  let is_another_instance_running := (last_error =? ERROR_ALREADY_EXISTS)%Z in
  let t0 := console ++ [EvCreateMutex kSingleInstanceMutexName] in
  if is_another_instance_running then
    let d1 := WakeUpExistingWindow d in
    match single_instance_mutex with
    | Some h =>
        {| exit_code := EXIT_SUCCESS;
           trace := t0 ++ [EvWakeUpExistingWindow; EvCloseHandle h];
           kernel_after := CloseHandle k1 kSingleInstanceMutexName;
           desktop_after := d1 |}
    | None =>
        {| exit_code := EXIT_SUCCESS;
           trace := t0 ++ [EvWakeUpExistingWindow];
           kernel_after := k1;
           desktop_after := d1 |}
    end
  else
    let t1 := t0 ++ [EvCoInitializeEx] in
    if negb (window_create_ok env) then
      {| exit_code := EXIT_FAILURE;
         trace := t1 ++ [EvWindowCreate (L "NAI Launcher") false];
         kernel_after := k1;
         desktop_after := d |}
    else
      let t2 := t1 ++ [EvWindowCreate (L "NAI Launcher") true; EvSetQuitOnClose]
                   ++ message_loop (pending_messages env) in
      match single_instance_mutex with
      | Some h =>
          {| exit_code := EXIT_SUCCESS;
             trace := t2 ++ [EvCloseHandle h; EvCoUninitialize];
             kernel_after := CloseHandle k1 kSingleInstanceMutexName;
             desktop_after := d |}
      | None =>
          {| exit_code := EXIT_SUCCESS;
             trace := t2 ++ [EvCoUninitialize];
             kernel_after := k1;
             desktop_after := d |}
      end.

(** Startup was aborted: a failure exit code, no window created, no message
    loop run. *)
Definition aborts_startup (o : Outcome) : Prop :=
  exit_code o ≠ EXIT_SUCCESS ∧
  (∀ title ok, EvWindowCreate title ok ∉ trace o) ∧
  (∀ got, EvGetMessage got ∉ trace o).

(** *** Two processes at the Instance Guard

    Lines 55 to 58 of [wWinMain] are two steps of a process: the system call
    [CreateMutex], atomic in the kernel, and the read of the thread's own
    last-error value with the comparison.  A process is at one of three
    points. *)
Inductive Acq :=
  | AtCreateMutex (stale_last_error : Z)
  | AtGetLastError (single_instance_mutex : option Z) (last_error : Z)
  | Acquired (single_instance_mutex : option Z) (is_another_instance_running : bool).

Definition acq_step (failure : option Z) (fresh : Z) (k : gmap (list Z) nat) (a : Acq)
    : gmap (list Z) nat * Acq :=
  match a with
  | AtCreateMutex _ =>
      let '(k1, h, e) := CreateMutex k failure fresh kSingleInstanceMutexName in
      (k1, AtGetLastError h e)
  | AtGetLastError h e => (k, Acquired h (e =? ERROR_ALREADY_EXISTS)%Z)
  | Acquired h b => (k, Acquired h b)
  end.

Inductive Proc := P1 | P2.

Record Race := {
  race_kernel : gmap (list Z) nat;
  proc1 : Acq;
  proc2 : Acq
}.

(** One step of the process the scheduler picked; [o1] and [o2] are what the
    system decides for the [CreateMutex] call of each process. *)
Definition race_step (o1 o2 : option Z * Z) (s : Race) (p : Proc) : Race :=
  match p with
  | P1 => let '(k, a) := acq_step (fst o1) (snd o1) (race_kernel s) (proc1 s) in
          {| race_kernel := k; proc1 := a; proc2 := proc2 s |}
  | P2 => let '(k, a) := acq_step (fst o2) (snd o2) (race_kernel s) (proc2 s) in
          {| race_kernel := k; proc1 := proc1 s; proc2 := a |}
  end.

Definition race_run (o1 o2 : option Z * Z) (sched : list Proc) (s : Race) : Race :=
  foldl (race_step o1 o2) s sched.

Definition race_start (k : gmap (list Z) nat) (e1 e2 : Z) : Race :=
  {| race_kernel := k; proc1 := AtCreateMutex e1; proc2 := AtCreateMutex e2 |}.

(** The flag a process that holds a handle has computed or is about to
    compute; [None] for a process with no handle. *)
Definition flag_of (a : Acq) : option bool :=
  match a with
  | AtCreateMutex _ => None
  | AtGetLastError (Some _) e => Some (e =? ERROR_ALREADY_EXISTS)%Z
  | AtGetLastError None _ => None
  | Acquired (Some _) b => Some b
  | Acquired None _ => None
  end.

(** What every reachable state of the race satisfies: the mutex exists
    exactly when a process holds a handle, a single holder is the first
    instance, and of two holders exactly one is. *)
Definition race_inv (s : Race) : Prop :=
  match flag_of (proc1 s), flag_of (proc2 s) with
  | None, None => race_kernel s !! kSingleInstanceMutexName = None
  | Some b, None | None, Some b =>
      b = false ∧ is_Some (race_kernel s !! kSingleInstanceMutexName)
  | Some b1, Some b2 =>
      b1 = negb b2 ∧ is_Some (race_kernel s !! kSingleInstanceMutexName)
  end.

(** How many of its two steps a process has taken. *)
Definition steps_taken (a : Acq) : nat :=
  match a with
  | AtCreateMutex _ => 0
  | AtGetLastError _ _ => 1
  | Acquired _ _ => 2
  end.

Definition same_proc (p q : Proc) : bool :=
  match p, q with
  | P1, P1 | P2, P2 => true
  | _, _ => false
  end.

(** How often the schedule picks [p]. *)
Fixpoint turns (p : Proc) (sched : list Proc) : nat :=
  match sched with
  | [] => 0
  | q :: rest => (if same_proc p q then 1 else 0) + turns p rest
  end.

(** A process past [CreateMutex] holds a handle. *)
Definition holds_handle (a : Acq) : Prop :=
  match a with
  | AtCreateMutex _ => True
  | AtGetLastError h _ | Acquired h _ => is_Some h
  end.

(** The process holds a handle and has computed its flag. *)
Definition acquired_as (a : Acq) (first_instance : bool) : Prop :=
  ∃ h, a = Acquired (Some h) (negb first_instance).

(** The process has run both steps and takes itself for the first
    instance or not, with a handle or without one. *)
Definition observes (a : Acq) (first_instance : bool) : Prop :=
  ∃ h, a = Acquired h (negb first_instance).

Definition proc_of (p : Proc) (s : Race) : Acq :=
  match p with P1 => proc1 s | P2 => proc2 s end.

Definition other_proc (p : Proc) : Proc :=
  match p with P1 => P2 | P2 => P1 end.

End Main.

(** ** flutter_window.cpp *)

Module FlutterWindow.
Import WStr Win32.

(** The fields of [LOGFONTW] the code reads or writes.  [lfFaceName] is the
    [WCHAR[32]] array, NUL-terminated. *)
Record LOGFONTW := { lfCharSet : Z; lfFaceName : list Z }.

(** [L'@'], the first character of a vertical face. *)
Definition vertical_marker : Z := 0x40.

(** [std::set<std::wstring>]: its elements in iteration order, kept strictly
    increasing by [insert], which leaves the set alone when an equivalent
    element is there. *)
Fixpoint set_insert (x : list Z) (s : list (list Z)) : list (list Z) :=
  match s with
  | [] => [x]
  | y :: s' =>
      if wstring_lt x y then x :: y :: s'
      else if wstring_lt y x then y :: set_insert x s'
      else y :: s'
  end.

(** [std::set::clear]. *)
Definition set_clear (s : list (list Z)) : list (list Z) := [].

(** The name [std::wstring] takes from the array of a face. *)
Definition face_name (f : LOGFONTW) : list Z := c_str (lfFaceName f).

(** A text, wide or UTF-8, that begins with the marker. *)
Definition begins_with_marker (text : list Z) : Prop := head text = Some vertical_marker.

(** The callback: the global [g_font_names] is passed in and out; the
    returned integer tells the enumeration to go on. *)
Definition EnumFontFamExProc (lpelfe : LOGFONTW) (g_font_names : list (list Z))
    : list (list Z) * Z :=
  if negb (nth 0 (lfFaceName lpelfe) 0 =? vertical_marker)%Z
  then (set_insert (c_str (lfFaceName lpelfe)) g_font_names, 1%Z)
  else (g_font_names, 1%Z).

(** [EnumFontFamiliesExW]: calls the callback on each face the system
    reports, in the system's order, until the callback returns zero. *)
Fixpoint EnumFontFamiliesExW (faces : list LOGFONTW)
    (proc : LOGFONTW → list (list Z) → list (list Z) * Z)
    (g : list (list Z)) : list (list Z) :=
  match faces with
  | [] => g
  | f :: rest =>
      let '(g', go_on) := proc f g in
      if (go_on =? 0)%Z then g' else EnumFontFamiliesExW rest proc g'
  end.

(** One turn of the conversion loop: [result] after the body has run on
    [name]. *)
Definition convert_and_push (result : list (list Z)) (name : list Z) : list (list Z) :=
  let size := WideCharToMultiByte_size name in
  if (0 <? size)%Z then
    let utf8_name := take (Z.to_nat (size - 1)) (WideCharToMultiByte_fill name size) in
    result ++ [utf8_name]
  else result.

(** [GetSystemFonts] on a system that reports [faces]: the returned vector
    and the global set it leaves behind. *)
Definition GetSystemFonts (faces : list LOGFONTW) (g_font_names : list (list Z))
    : list (list Z) * list (list Z) :=
  let g0 := set_clear g_font_names in
  let g1 := EnumFontFamiliesExW faces EnumFontFamExProc g0 in
  (foldl convert_and_push [] g1, g1).

Definition kWakeUpMessage : Z := (WM_USER + 1)%Z.

(** [flutter::EncodableValue], as far as the runner builds it. *)
#[warnings="-register-all"]
Inductive EncodableValue :=
  | EncodableNull
  | EncodableString (s : list Z)
  | EncodableList (l : list EncodableValue).

(** What a method call handler does with its [MethodResult]. *)
Inductive MethodResult :=
  | Success (v : EncodableValue)
  | Error (code message : string) (details : EncodableValue)
  | NotImplemented.

(** The handler [OnCreate] installs on [com.nailauncher/system_fonts]. *)
Definition system_fonts_handler (method_name : string) (faces : list LOGFONTW)
    (g_font_names : list (list Z)) : MethodResult * list (list Z) :=
  if String.eqb method_name "getSystemFonts" then
    let '(fonts, g') := GetSystemFonts faces g_font_names in
    let font_list := map EncodableString fonts in
    (Success (EncodableList font_list), g')
  else (NotImplemented, g_font_names).

(** What [MessageHandler] does besides computing its result. *)
Inductive Effect :=
  | ReloadSystemFonts
  | InvokeMethod (channel method : string) (arguments : option EncodableValue)
  | BaseMessageHandler (hwnd message wparam lparam : Z).

(** [FlutterWindow::MessageHandler].  [flutter_controller_] is the member,
    null or a controller given by its [HandleTopLevelWindowProc];
    [base] is [Win32Window::MessageHandler].  The result is [None] when the
    code dereferences the null [flutter_controller_]. *)
Definition MessageHandler
    (flutter_controller_ : option (Z → Z → Z → Z → option Z))
    (base : Z → Z → Z → Z → Z)
    (hwnd message wparam lparam : Z) : option (list Effect * Z) :=
  let hooked :=
    match flutter_controller_ with
    | Some HandleTopLevelWindowProc => HandleTopLevelWindowProc hwnd message wparam lparam
    | None => None
    end in
  match hooked with
  | Some result => Some ([], result)
  | None =>
      let switch :=
        if (message =? WM_FONTCHANGE)%Z then
          match flutter_controller_ with
          | Some _ => Some [ReloadSystemFonts]
          | None => None
          end
        else if (message =? kWakeUpMessage)%Z then
          match flutter_controller_ with
          | Some _ => Some [InvokeMethod "com.nailauncher/window_control" "wakeUp" None]
          | None => None
          end
        else Some [] in
      match switch with
      | Some effects =>
          Some (effects ++ [BaseMessageHandler hwnd message wparam lparam],
                base hwnd message wparam lparam)
      | None => None
      end
  end.

(** The bridge's own switch ran its case for [message]: the handler
    returned normally and the action of the reserved code is among its
    effects. *)
Definition bridge_acted (message : Z) (r : option (list Effect * Z)) : Prop :=
  ∃ effects result, r = Some (effects, result) ∧
    ((message = WM_FONTCHANGE ∧ ReloadSystemFonts ∈ effects) ∨
     (message = kWakeUpMessage ∧
      InvokeMethod "com.nailauncher/window_control" "wakeUp" None ∈ effects)).

(** The calls the embedded runtime makes on [com.nailauncher/system_fonts],
    one after the other, each answered by the handler on the global set the
    call before left; [faces] is what the system reports throughout. *)
Fixpoint serve_calls (faces : list LOGFONTW) (calls : list string)
    (g_font_names : list (list Z)) : list MethodResult * list (list Z) :=
  match calls with
  | [] => ([], g_font_names)
  | method_name :: rest =>
      let '(r, g') := system_fonts_handler method_name faces g_font_names in
      let '(rs, g'') := serve_calls faces rest g' in
      (r :: rs, g'')
  end.

(** The payload [getSystemFonts] answers with on a system that reports
    [faces]. *)
Definition font_payload (faces : list LOGFONTW) : EncodableValue :=
  EncodableList (map EncodableString (GetSystemFonts faces []).1).

(** What [OnDestroy] does besides resetting the member. *)
Inductive DestroyEffect := BaseOnDestroy.

(** [FlutterWindow::OnDestroy]: the member [flutter_controller_] afterwards
    and the call of [Win32Window::OnDestroy]. *)
Definition OnDestroy (flutter_controller_ : option (Z → Z → Z → Z → option Z))
    : option (Z → Z → Z → Z → option Z) * list DestroyEffect :=
  let flutter_controller_ :=
    match flutter_controller_ with
    | Some _ => None
    | None => flutter_controller_
    end in
  (flutter_controller_, [BaseOnDestroy]).

End FlutterWindow.

(** ** Concrete systems used below *)

Module Examples.
Import WStr Win32 Main FlutterWindow.

Definition plain_window (text : list Z) (iconic : bool) : Window :=
  {| wnd_text := text; wnd_iconic := iconic; wnd_queue := []; wnd_handled := [] |}.

(** One window, handle 7, whose title is 260 times the letter x and then
    the application name. *)
Definition long_title_desktop : Desktop :=
  {| zorder := [7%Z];
     windows := {[ 7%Z := plain_window (replicate 260 120%Z ++ L "NAI Launcher") false ]};
     foreground := None;
     foreground_allowed := true |}.

(** Three windows; the launcher, handle 12, is minimized and second in the
    enumeration. *)
Definition launcher_desktop : Desktop :=
  {| zorder := [11%Z; 12%Z; 13%Z];
     windows := {[ 11%Z := plain_window (L "Program Manager") false;
                   12%Z := plain_window (L "NAI Launcher") true;
                   13%Z := plain_window (L "nai launcher notes") false ]};
     foreground := Some 11%Z;
     foreground_allowed := true |}.

(** The system has no resources left for a mutex; everything else goes
    well and the user closes the window at once. *)
Definition exhausted_env : StartupEnv :=
  {| attach_console_ok := true; debugger_present := false;
     mutex_failure := Some ERROR_NOT_ENOUGH_MEMORY; mutex_handle := 0;
     window_create_ok := true; pending_messages := [] |}.

(** A first instance whose window cannot be created. *)
Definition no_window_env : StartupEnv :=
  {| attach_console_ok := true; debugger_present := false;
     mutex_failure := None; mutex_handle := 0x1F4;
     window_create_ok := false; pending_messages := [] |}.

(** An embedded runtime whose hook reports every message handled, with
    result 0, and a base handler that returns 0. *)
Definition hook_handles_all : Z → Z → Z → Z → option Z := λ _ _ _ _, Some 0%Z.
Definition base_returns_0 : Z → Z → Z → Z → Z := λ _ _ _ _, 0%Z.
(** One that handles nothing. *)
Definition hook_handles_none : Z → Z → Z → Z → option Z := λ _ _ _ _, None.

Definition face (name : string) : LOGFONTW :=
  {| lfCharSet := 0; lfFaceName := L name ++ [0%Z] |}.

(** What a system may report: a face under two character sets, a vertical
    face beside its horizontal one, in one order and in another. *)
Definition sample_faces : list LOGFONTW :=
  [face "SimSun"; face "@SimSun"; face "Arial"; face "SimSun"; face "Consolas"].
Definition sample_faces_reordered : list LOGFONTW :=
  [face "Consolas"; face "Arial"; face "@SimSun"; face "Arial"; face "SimSun"].

(** Two faces whose names are a lone high surrogate each. *)
Definition surrogate_faces : list LOGFONTW :=
  [ {| lfCharSet := 0; lfFaceName := [0xD800; 0]%Z |};
    {| lfCharSet := 0; lfFaceName := [0xD801; 0]%Z |} ].

(** A start while an earlier instance holds the mutex, and a start with
    nothing in the way; three messages arrive before the window is closed. *)
Definition plain_env : StartupEnv :=
  {| attach_console_ok := false; debugger_present := true;
     mutex_failure := None; mutex_handle := 0x1F4;
     window_create_ok := true;
     pending_messages :=
       [ {| message := 0x000F; wParam := 0; lParam := 0 |};
         {| message := 0x0401; wParam := 0; lParam := 0 |};
         {| message := 0x0010; wParam := 0; lParam := 0 |} ] |}.

Definition held_once : gmap (list Z) nat := {[ kSingleInstanceMutexName := 1%nat ]}.

(** No window carries the application name. *)
Definition other_desktop : Desktop :=
  {| zorder := [21%Z; 22%Z];
     windows := {[ 21%Z := plain_window (L "Program Manager") false;
                   22%Z := plain_window (L "Notepad") true ]};
     foreground := Some 22%Z;
     foreground_allowed := false |}.

(** Only vertical faces. *)
Definition vertical_faces : list LOGFONTW := [face "@SimSun"; face "@MS Gothic"].

End Examples.

(** ** Proof steps used more than once *)

(** The four cases of a [CreateMutex] step under the invariant [H]: the
    hypothesis is absurd, or the new flag is as the invariant wants it. *)
Ltac race_case H :=
  lazymatch type of H with
  | _ ∧ _ =>
      let Hs := fresh "Hs" in
      destruct H as [-> Hs];
      first [ by destruct Hs as [? [=]] | by (split; [done|by eexists]) ]
  | _ => first [ discriminate H | by (split; [done|by eexists]) ]
  end.

(** Equal lists of bytes, byte by byte. *)
Ltac split_lists :=
  repeat match goal with
         | H : _ :: _ = _ :: _ |- _ => injection H as ? ?
         end.

(** Linear arithmetic with quotients and remainders by constants. *)
Ltac euclid := Z.to_euclidean_division_equations; lia.

(** * Properties *)

Import WStr Win32.

(** ** Wide strings *)

Section wide_strings.
Implicit Types (s t h n buf : list Z) (i j k : nat).

Lemma c_str_no_nul buf : 0%Z ∉ c_str buf.
Proof.
  induction buf as [|c rest IH]; simpl; [apply not_elem_of_nil|].
  destruct (Z.eqb_spec c 0); [apply not_elem_of_nil|].
  intros [?|H]%elem_of_cons; [congruence|by apply IH].
Qed.

Lemma c_str_id s : 0%Z ∉ s → c_str s = s.
Proof.
  induction s as [|c rest IH]; simpl; [done|].
  intros [Hc Hrest]%not_elem_of_cons.
  destruct (Z.eqb_spec c 0); [congruence|]. by rewrite IH.
Qed.

Lemma c_str_idemp buf : c_str (c_str buf) = c_str buf.
Proof. apply c_str_id, c_str_no_nul. Qed.

Lemma c_str_app_nul buf : c_str (buf ++ [0%Z]) = c_str buf.
Proof.
  induction buf as [|c rest IH]; simpl; [done|].
  destruct (Z.eqb_spec c 0); [done|]. by rewrite IH.
Qed.

Lemma c_str_take k buf : c_str (take k buf) = take k (c_str buf).
Proof.
  revert k. induction buf as [|c rest IH]; intros [|k]; simpl; try done.
  destruct (Z.eqb_spec c 0); [done|]. simpl. by rewrite IH.
Qed.

Lemma starts_with_spec n h : starts_with n h = true ↔ ∃ post, h = n ++ post.
Proof.
  revert h. induction n as [|a n IH]; intros h; simpl.
  - split; [by exists h|done].
  - destruct h as [|b h]; [split; [done|by intros [? ?]]|].
    rewrite andb_true_iff, Z.eqb_eq, IH. split.
    + intros [-> [post ->]]. by exists post.
    + intros [post [= -> ->]]. eauto.
Qed.

Lemma occurs_at_0 t s : occurs_at t s 0 ↔ starts_with t s = true.
Proof.
  rewrite starts_with_spec. split.
  - intros (pre & post & -> & Hlen). destruct pre; [|done]. by exists post.
  - intros [post ->]. by exists [], post.
Qed.

Lemma occurs_at_S t c s i : occurs_at t (c :: s) (S i) ↔ occurs_at t s i.
Proof.
  split.
  - intros (pre & post & Heq & Hlen). destruct pre as [|c' pre]; [done|].
    simpl in *. injection Heq as -> ->. exists pre, post. split; [done|lia].
  - intros (pre & post & -> & Hlen). exists (c :: pre), post. simpl. by rewrite Hlen.
Qed.

Lemma occurs_at_nil t i : occurs_at t [] i → t = [] ∧ i = 0.
Proof.
  intros (pre & post & Heq & Hlen). symmetry in Heq.
  apply app_eq_nil in Heq as [-> [-> _]%app_eq_nil]. by subst.
Qed.

(** [find_first] returns the least offset at which the needle occurs. *)
Lemma find_first_Some h n i :
  find_first h n = Some i → occurs_at n h i ∧ ∀ j, occurs_at n h j → i ≤ j.
Proof.
  revert i. induction h as [|c h IH]; intros i; simpl.
  - destruct (starts_with n []) eqn:E; [|done]. intros [= <-].
    split; [by apply occurs_at_0|lia].
  - destruct (starts_with n (c :: h)) eqn:E.
    + intros [= <-]. split; [by apply occurs_at_0|lia].
    + destruct (find_first h n) as [i'|] eqn:F; [|done]. simpl. intros [= <-].
      destruct (IH i' eq_refl) as [Hocc Hmin]. split; [by apply occurs_at_S|].
      intros [|j] Hj.
      * apply occurs_at_0 in Hj. congruence.
      * apply occurs_at_S, Hmin in Hj. lia.
Qed.

Lemma find_first_None h n : find_first h n = None → ¬ contains n h.
Proof.
  induction h as [|c h IH]; simpl.
  - destruct (starts_with n []) eqn:E; [done|]. intros _ [i Hi].
    apply occurs_at_nil in Hi as [-> ->]. done.
  - destruct (starts_with n (c :: h)) eqn:E; [done|].
    destruct (find_first h n) eqn:F; [done|]. intros _ [[|i] Hi].
    + apply occurs_at_0 in Hi. congruence.
    + apply occurs_at_S in Hi. apply IH; [done|by exists i].
Qed.

Lemma find_first_contains h n : is_Some (find_first h n) ↔ contains n h.
Proof.
  split.
  - intros [i Hi]. exists i. by apply find_first_Some.
  - intros Hc. destruct (find_first h n) eqn:F; [done|].
    by apply find_first_None in F.
Qed.

(** An occurrence is decided by [starts_with] on the text dropped to the
    offset. *)
Lemma occurs_at_drop t s i :
  occurs_at t s i ↔ i ≤ length s ∧ starts_with t (drop i s) = true.
Proof.
  revert s. induction i as [|i IH]; intros s.
  - rewrite occurs_at_0. simpl. intuition lia.
  - destruct s as [|c s].
    + split; [by intros [_ [=]]%occurs_at_nil|simpl; lia].
    + rewrite occurs_at_S, IH. simpl. intuition lia.
Qed.

End wide_strings.

(** ** Window Locator *)

Section window_locator.
Import Main Examples.
Implicit Types (d : Desktop) (fragment enum : list Z) (h hwnd : Z).

(** What [wcsstr] sees in the 256-wide buffer: the first 255 code units of
    the title. *)
Lemma GetWindowText_256 d hwnd :
  c_str (GetWindowText d hwnd 256) = take 255 (caption d hwnd).
Proof.
  unfold GetWindowText, caption. destruct (windows d !! hwnd) as [w|]; [|done].
  rewrite c_str_app_nul, c_str_take. done.
Qed.

Lemma wcsstr_title d hwnd fragment :
  is_Some (wcsstr (GetWindowText d hwnd 256) fragment)
  ↔ contains fragment (take 255 (caption d hwnd)).
Proof. unfold wcsstr. by rewrite GetWindowText_256, find_first_contains. Qed.

Lemma scan_windows_first d fragment enum :
  first_such (λ h, contains fragment (take 255 (caption d h))) enum
    (scan_windows d fragment enum).
Proof.
  induction enum as [|hwnd rest IH]; simpl.
  - intros h Hh. by apply elem_of_nil in Hh.
  - destruct (wcsstr (GetWindowText d hwnd 256) fragment) as [i|] eqn:E.
    + exists [], rest. split; [done|]. split.
      * apply wcsstr_title. by rewrite E.
      * intros h' Hh'. by apply elem_of_nil in Hh'.
    + assert (¬ contains fragment (take 255 (caption d hwnd))) as Hno.
      { rewrite <- wcsstr_title, E. by intros [? ?]. }
      destruct (scan_windows d fragment rest) as [h|]; simpl in *.
      * destruct IH as (pre & post & -> & HP & Hpre).
        exists (hwnd :: pre), post. split; [done|]. split; [done|].
        intros h' [->|Hin]%elem_of_cons; [done|by apply Hpre].
      * intros h [->|Hin]%elem_of_cons; [done|by apply IH].
Qed.

(** An occurrence inside the first [k] code units is an occurrence in the
    whole text, at the same offset. *)
Lemma occurs_at_take t s k i : occurs_at t (take k s) i → occurs_at t s i.
Proof.
  intros (pre & post & Heq & Hlen). exists pre, (post ++ drop k s).
  split; [|done]. rewrite <- (take_drop k s) at 1. rewrite Heq.
  by rewrite <- !app_assoc.
Qed.

Lemma occurs_at_take_bound t s k i :
  occurs_at t (take k s) i → i + length t ≤ k.
Proof.
  intros (pre & post & Heq & Hlen).
  assert (length (take k s) ≤ k) as Hk by (rewrite length_take; lia).
  rewrite Heq, !length_app in Hk. lia.
Qed.

(** A finite check that settles "every occurrence starts at [k] or later". *)
Lemma no_early_occurrence t s k :
  forallb (λ i, negb (starts_with t (drop i s))) (seq 0 k) = true →
  ∀ i, occurs_at t s i → k ≤ i.
Proof.
  intros Hall i [_ Hi]%occurs_at_drop.
  destruct (decide (k ≤ i)) as [|Hlt]; [done|exfalso].
  rewrite forallb_forall in Hall. specialize (Hall i).
  rewrite Hi in Hall. simpl in Hall. discriminate Hall.
  apply in_seq. lia.
Qed.

(** C6, as the code has it: for every desktop and every fragment the
    locator returns the first window, in enumeration order, such that the
    first 255 code units of its title contain the fragment (compared code
    unit by code unit), and no window when the enumeration has none such, in
    particular when it is empty. *)
Theorem FindByTitleContains_first_in_buffer d fragment :
  first_such (λ h, contains fragment (take 255 (caption d h))) (zorder d)
    (FindByTitleContains fragment d).
Proof. apply scan_windows_first. Qed.

(** C6 as stated fails: the only window of [long_title_desktop] has a title
    that contains the application name, and the locator returns no window. *)
Lemma FindByTitleContains_misses_long_title :
  contains (L "NAI Launcher") (caption long_title_desktop 7) ∧
  ¬ first_such (λ h, contains (L "NAI Launcher") (caption long_title_desktop h))
      (zorder long_title_desktop)
      (FindByTitleContains (L "NAI Launcher") long_title_desktop).
Proof.
  assert (contains (L "NAI Launcher") (caption long_title_desktop 7)) as Hc.
  { exists 260, (replicate 260 120%Z), []. split; [|done]. by vm_compute. }
  split; [done|].
  replace (FindByTitleContains (L "NAI Launcher") long_title_desktop)
    with (@None Z) by (by vm_compute).
  intros Hnone. apply (Hnone 7%Z); [|done]. simpl. by constructor.
Qed.

(** C10: a window whose title has the fragment only at offset 255 or later
    is never the window the locator returns. *)
Theorem FindByTitleContains_ignores_beyond_255 d fragment hwnd :
  (∀ i, occurs_at fragment (caption d hwnd) i → 255 ≤ i) →
  FindByTitleContains fragment d ≠ Some hwnd.
Proof.
  intros Hbeyond Hfound.
  pose proof (scan_windows_first d fragment (zorder d)) as Hfirst.
  unfold FindByTitleContains in Hfound. rewrite Hfound in Hfirst.
  destruct Hfirst as (_ & _ & _ & [i Hi] & _).
  pose proof (occurs_at_take_bound _ _ _ _ Hi) as Hle.
  pose proof (Hbeyond i (occurs_at_take _ _ _ _ Hi)) as Hge.
  assert (fragment = []) as -> by (apply nil_length_inv; lia).
  assert (occurs_at [] (caption d hwnd) 0) as H0 by (by exists [], (caption d hwnd)).
  apply Hbeyond in H0. lia.
Qed.

Lemma FindByTitleContains_ignores_beyond_255_witness :
  (∀ i, occurs_at (L "NAI Launcher") (caption long_title_desktop 7) i → 255 ≤ i) ∧
  FindByTitleContains (L "NAI Launcher") long_title_desktop ≠ Some 7%Z.
Proof.
  assert (∀ i, occurs_at (L "NAI Launcher") (caption long_title_desktop 7) i → 255 ≤ i)
    as Hbeyond by (apply no_early_occurrence; vm_compute; reflexivity).
  split; [exact Hbeyond|].
  exact (FindByTitleContains_ignores_beyond_255 long_title_desktop (L "NAI Launcher") 7 Hbeyond).
Defined.

End window_locator.

(** ** Wake Notifier *)

Section wake_notifier.
Import Main Examples.
Implicit Types (d : Desktop) (h hwnd : Z) (m : MSG).

Lemma contains_nonempty t s : contains t s → t ≠ [] → s ≠ [].
Proof.
  intros (i & pre & post & -> & _) Ht Hnil.
  apply app_eq_nil in Hnil as [_ [? _]%app_eq_nil]. done.
Qed.

(** A window the locator returns exists: the handle of a destroyed window
    reads as the empty title, which does not contain the name. *)
Lemma FindExistingFlutterWindow_exists d hwnd :
  FindExistingFlutterWindow d = Some hwnd → is_Some (windows d !! hwnd).
Proof.
  intros Hfound.
  pose proof (scan_windows_first d (L "NAI Launcher") (zorder d)) as Hfirst.
  unfold FindExistingFlutterWindow, FindByTitleContains in Hfound.
  rewrite Hfound in Hfirst. destruct Hfirst as (_ & _ & _ & Hc & _).
  apply contains_nonempty in Hc; [|done].
  unfold caption in Hc. destruct (windows d !! hwnd); [done|].
  by rewrite take_nil in Hc.
Qed.

Lemma windows_ShowWindow_restore d hwnd w :
  windows d !! hwnd = Some w →
  ∃ w', windows (ShowWindow d hwnd SW_RESTORE) !! hwnd = Some w' ∧
        wnd_queue w' = wnd_queue w ∧ wnd_handled w' = wnd_handled w ∧
        wnd_text w' = wnd_text w ∧ wnd_iconic w' = false.
Proof.
  intros Hw. unfold ShowWindow. simpl. rewrite lookup_alter_eq, Hw. simpl.
  eexists. split; [reflexivity|]. simpl. done.
Qed.

Lemma windows_SetForegroundWindow d hwnd :
  windows (SetForegroundWindow d hwnd) = windows d.
Proof. unfold SetForegroundWindow. by case_match. Qed.

Lemma SendMessage_processed d hwnd m :
  is_Some (windows d !! hwnd) → processed_on_return d (SendMessage d hwnd m) hwnd m.
Proof.
  intros [w Hw]. exists w. eexists. split; [done|]. unfold SendMessage. simpl.
  rewrite lookup_alter_eq, Hw. simpl. split; [reflexivity|]. simpl. done.
Qed.

(** The asynchronous call, had the code used it, would leave the message in
    the queue. *)
Lemma PostMessage_queued d hwnd m :
  is_Some (windows d !! hwnd) → queued_on_return d (PostMessage d hwnd m) hwnd m.
Proof.
  intros [w Hw]. exists w. eexists. split; [done|]. unfold PostMessage. simpl.
  rewrite lookup_alter_eq, Hw. simpl. split; [reflexivity|]. simpl. done.
Qed.

(** The two ways exclude each other. *)
Lemma processed_not_queued d d' hwnd m :
  processed_on_return d d' hwnd m → ¬ queued_on_return d d' hwnd m.
Proof.
  intros (w & w' & Hw & Hw' & Hq & _) (v & v' & Hv & Hv' & Hq' & _).
  assert (v = w) as -> by congruence. assert (v' = w') as -> by congruence.
  rewrite Hq in Hq'. apply (f_equal length) in Hq'.
  rewrite length_app in Hq'. simpl in Hq'. lia.
Qed.

(** C3, as the code has it: for every located window the third step hands
    the wake Signal to [SendMessage]: when [WakeUpExistingWindow] returns the
    window procedure of that window has processed the Signal, and its queue
    is as it was. *)
Theorem WakeUpExistingWindow_sends_synchronously d hwnd :
  FindExistingFlutterWindow d = Some hwnd →
  processed_on_return d (WakeUpExistingWindow d) hwnd wake_msg.
Proof.
  intros Hfound. destruct (FindExistingFlutterWindow_exists d hwnd Hfound) as [w Hw].
  unfold WakeUpExistingWindow. rewrite Hfound.
  set (d1 := if IsIconic d hwnd then ShowWindow d hwnd SW_RESTORE else d).
  assert (∃ w1, windows d1 !! hwnd = Some w1 ∧ wnd_queue w1 = wnd_queue w ∧
                wnd_handled w1 = wnd_handled w) as (w1 & Hw1 & Hq1 & Hh1).
  { subst d1. destruct (IsIconic d hwnd); [|by eauto].
    destruct (windows_ShowWindow_restore d hwnd w Hw) as (w' & ? & ? & ? & _). eauto. }
  destruct (SendMessage_processed (SetForegroundWindow d1 hwnd) hwnd wake_msg)
    as (w2 & w3 & Hw2 & Hw3 & Hq3 & Hh3).
  { rewrite windows_SetForegroundWindow, Hw1. done. }
  rewrite windows_SetForegroundWindow, Hw1 in Hw2. injection Hw2 as <-.
  exists w, w3. split; [done|]. split; [done|]. split; congruence.
Qed.

Lemma WakeUpExistingWindow_sends_synchronously_witness :
  FindExistingFlutterWindow launcher_desktop = Some 12%Z ∧
  processed_on_return launcher_desktop (WakeUpExistingWindow launcher_desktop) 12 wake_msg.
Proof.
  assert (FindExistingFlutterWindow launcher_desktop = Some 12%Z) as Hfound
    by (vm_compute; reflexivity).
  split; [exact Hfound|].
  exact (WakeUpExistingWindow_sends_synchronously launcher_desktop 12 Hfound).
Defined.

(** C3 as stated fails: on [launcher_desktop] the locator finds window 12,
    and when [WakeUpExistingWindow] returns the Signal is not waiting in the
    queue of that window. *)
Lemma WakeUpExistingWindow_does_not_post :
  FindExistingFlutterWindow launcher_desktop = Some 12%Z ∧
  ¬ queued_on_return launcher_desktop (WakeUpExistingWindow launcher_desktop) 12 wake_msg.
Proof.
  assert (FindExistingFlutterWindow launcher_desktop = Some 12%Z) as Hfound
    by (vm_compute; reflexivity).
  split; [exact Hfound|].
  intros (w & w' & Hw & Hw' & Hq & Hh).
  vm_compute in Hw. injection Hw as <-.
  vm_compute in Hw'. injection Hw' as <-.
  discriminate Hq.
Qed.

End wake_notifier.

(** ** Startup: exit paths of wWinMain *)

Section startup.
Import Main Examples.
Implicit Types (env : StartupEnv) (k : gmap (list Z) nat) (d : Desktop) (e h : Z).

Lemma CloseHandle_not_in_message_loop h msgs : EvCloseHandle h ∉ message_loop msgs.
Proof.
  induction msgs as [|m rest IH]; simpl.
  - by intros [=]%list_elem_of_singleton.
  - intros [[=]|[[=]|[[=]|Hin]%elem_of_cons]%elem_of_cons]%elem_of_cons.
    by apply IH.
Qed.

Lemma CloseHandle_not_in_console h env : EvCloseHandle h ∉ console_events env.
Proof.
  unfold console_events. case_match.
  - by intros [=]%list_elem_of_singleton.
  - apply not_elem_of_nil.
Qed.

Lemma GetMessage_in_message_loop msgs : EvGetMessage None ∈ message_loop msgs.
Proof.
  induction msgs as [|m rest IH]; simpl.
  - apply list_elem_of_here.
  - by do 3 apply list_elem_of_further.
Qed.

(** C2, as the code has it: when [CreateMutex] returns null with a
    last-error other than [ERROR_ALREADY_EXISTS], [wWinMain] goes on as a
    first instance without a handle: it tries to create the window; when
    that fails it exits with [EXIT_FAILURE], otherwise it runs the message
    loop and exits with [EXIT_SUCCESS]; it never calls [CloseHandle] and the
    kernel's table is as before. *)
Theorem wWinMain_mutex_failure_runs_as_first env k d e :
  mutex_failure env = Some e → e ≠ ERROR_ALREADY_EXISTS →
  let o := wWinMain env k d in
  exit_code o = (if window_create_ok env then EXIT_SUCCESS else EXIT_FAILURE) ∧
  trace o =
    console_events env
    ++ [EvCreateMutex kSingleInstanceMutexName; EvCoInitializeEx;
        EvWindowCreate (L "NAI Launcher") (window_create_ok env)]
    ++ (if window_create_ok env
        then EvSetQuitOnClose :: message_loop (pending_messages env) ++ [EvCoUninitialize]
        else []) ∧
  kernel_after o = k ∧ desktop_after o = d.
Proof.
  intros Hfail Hne. unfold wWinMain, CreateMutex. rewrite Hfail.
  destruct (Z.eqb_spec e ERROR_ALREADY_EXISTS) as [|_]; [done|].
  destruct (window_create_ok env); simpl.
  - repeat split; try done. by rewrite <- !app_assoc.
  - repeat split; try done. by rewrite <- !app_assoc.
Qed.

Lemma wWinMain_mutex_failure_runs_as_first_witness :
  let o := wWinMain exhausted_env ∅ launcher_desktop in
  exit_code o = EXIT_SUCCESS ∧
  trace o =
    [EvCreateMutex kSingleInstanceMutexName; EvCoInitializeEx;
     EvWindowCreate (L "NAI Launcher") true; EvSetQuitOnClose;
     EvGetMessage None; EvCoUninitialize] ∧
  kernel_after o = ∅ ∧ desktop_after o = launcher_desktop.
Proof.
  apply (wWinMain_mutex_failure_runs_as_first exhausted_env ∅ launcher_desktop
           ERROR_NOT_ENOUGH_MEMORY); [reflexivity|by vm_compute].
Defined.

(** C2 as stated fails: with the mutex refused for lack of memory the
    program creates its window, runs the message loop and exits with
    [EXIT_SUCCESS]. *)
Lemma wWinMain_mutex_failure_does_not_abort :
  mutex_failure exhausted_env = Some ERROR_NOT_ENOUGH_MEMORY ∧
  ERROR_NOT_ENOUGH_MEMORY ≠ ERROR_ALREADY_EXISTS ∧
  ¬ aborts_startup (wWinMain exhausted_env ∅ launcher_desktop).
Proof.
  split; [reflexivity|]. split; [by vm_compute|].
  intros [Hexit _]. by apply Hexit.
Qed.

(** C8, where the code departs from it: a first instance that holds the
    mutex and fails to create its window returns [EXIT_FAILURE] without
    calling [CloseHandle]; the mutex is still in the kernel's table. *)
Theorem wWinMain_window_failure_skips_CloseHandle env k d :
  mutex_failure env = None → k !! kSingleInstanceMutexName = None →
  window_create_ok env = false →
  let o := wWinMain env k d in
  exit_code o = EXIT_FAILURE ∧
  (∀ h, EvCloseHandle h ∉ trace o) ∧
  kernel_after o !! kSingleInstanceMutexName = Some 1%nat.
Proof.
  intros Hok Hfresh Hwin. unfold wWinMain, CreateMutex.
  rewrite Hok, Hfresh, Hwin. simpl. split; [done|]. split.
  - intros h. rewrite !not_elem_of_app. repeat split.
    + apply CloseHandle_not_in_console.
    + by intros [=]%list_elem_of_singleton.
    + by intros [=]%list_elem_of_singleton.
    + by intros [=]%list_elem_of_singleton.
  - apply lookup_insert_eq.
Qed.

Lemma wWinMain_window_failure_skips_CloseHandle_witness :
  let o := wWinMain no_window_env ∅ launcher_desktop in
  exit_code o = EXIT_FAILURE ∧
  (∀ h, EvCloseHandle h ∉ trace o) ∧
  kernel_after o !! kSingleInstanceMutexName = Some 1%nat.
Proof.
  apply (wWinMain_window_failure_skips_CloseHandle no_window_env ∅ launcher_desktop);
    reflexivity.
Defined.

(** The two sibling exits of a process that holds a handle do call
    [CloseHandle] on it. *)
Lemma wWinMain_other_exits_CloseHandle env k d :
  mutex_failure env = None →
  is_Some (k !! kSingleInstanceMutexName) ∨ window_create_ok env = true →
  EvCloseHandle (mutex_handle env) ∈ trace (wWinMain env k d).
Proof.
  intros Hok Hpath. unfold wWinMain, CreateMutex. rewrite Hok.
  destruct (k !! kSingleInstanceMutexName) as [n|] eqn:Hk; simpl.
  - rewrite !elem_of_app. right. by do 1 apply list_elem_of_further; apply list_elem_of_here.
  - destruct Hpath as [[? [=]]|Hwin]. rewrite Hwin. simpl.
    rewrite !elem_of_app. right. apply list_elem_of_here.
Qed.

End startup.

(** ** Instance Guard: two processes racing for the mutex *)

Section instance_guard.
Import Main.
Implicit Types (s : Race) (p : Proc) (sched : list Proc) (o : option Z * Z)
  (k : gmap (list Z) nat).

Lemma race_inv_start k e1 e2 :
  k !! kSingleInstanceMutexName = None → race_inv (race_start k e1 e2).
Proof. done. Qed.

(** One step of either process keeps the invariant. *)
Lemma race_inv_step o1 o2 s p : race_inv s → race_inv (race_step o1 o2 s p).
Proof.
  destruct s as [k a1 a2], o1 as [f1 h1], o2 as [f2 h2].
  unfold race_inv, race_step, acq_step, CreateMutex. simpl.
  destruct p; simpl.
  - destruct a1 as [e|[h|] e|[h|] b]; simpl; try done.
    destruct f1 as [e'|]; simpl; [done|].
    destruct (k !! kSingleInstanceMutexName) as [n|] eqn:Hk; simpl;
      destruct (flag_of a2) as [b2|]; simpl; rewrite lookup_insert_eq;
      intros H; race_case H.
  - destruct a2 as [e|[h|] e|[h|] b]; simpl; try done.
    destruct f2 as [e'|]; simpl; [done|].
    destruct (k !! kSingleInstanceMutexName) as [n|] eqn:Hk; simpl;
      destruct (flag_of a1) as [b1|]; simpl; rewrite lookup_insert_eq;
      intros H; race_case H.
Qed.

Lemma race_inv_run o1 o2 sched s : race_inv s → race_inv (race_run o1 o2 sched s).
Proof.
  revert s. induction sched as [|p rest IH]; intros s Hs; simpl; [done|].
  apply IH. by apply race_inv_step.
Qed.

(** A step of a process moves it one point on, up to the last; a step of
    the other leaves it alone. *)
Lemma acq_step_steps_taken failure fresh k a :
  steps_taken (acq_step failure fresh k a).2 = Nat.min 2 (S (steps_taken a)).
Proof.
  destruct a as [e|h e|h b]; try done.
  unfold acq_step, CreateMutex. destruct failure; [done|]. by destruct (k !! _).
Qed.

Lemma race_run_steps_taken o1 o2 sched s :
  steps_taken (proc1 (race_run o1 o2 sched s))
    = Nat.min 2 (steps_taken (proc1 s) + turns P1 sched) ∧
  steps_taken (proc2 (race_run o1 o2 sched s))
    = Nat.min 2 (steps_taken (proc2 s) + turns P2 sched).
Proof.
  unfold race_run. revert s.
  induction sched as [|p rest IH]; intros s; cbn [foldl turns].
  - assert (steps_taken (proc1 s) ≤ 2) by (destruct (proc1 s); simpl; lia).
    assert (steps_taken (proc2 s) ≤ 2) by (destruct (proc2 s); simpl; lia).
    lia.
  - destruct (IH (race_step o1 o2 s p)) as [IH1 IH2]. rewrite IH1, IH2.
    destruct p; unfold race_step; cbn [same_proc].
    + pose proof (acq_step_steps_taken o1.1 o1.2 (race_kernel s) (proc1 s)) as Hstep.
      destruct (acq_step o1.1 o1.2 (race_kernel s) (proc1 s)) as [k' a'].
      cbn [proc1 proc2 snd] in *. lia.
    + pose proof (acq_step_steps_taken o2.1 o2.2 (race_kernel s) (proc2 s)) as Hstep.
      destruct (acq_step o2.1 o2.2 (race_kernel s) (proc2 s)) as [k' a'].
      cbn [proc1 proc2 snd] in *. lia.
Qed.

Lemma acq_step_holds_handle fresh k a :
  holds_handle a → holds_handle (acq_step None fresh k a).2.
Proof.
  destruct a as [e|h e|h b]; try done. intros _.
  unfold acq_step, CreateMutex. destruct (k !! _); simpl; by eexists.
Qed.

Lemma race_step_holds_handle h1 h2 s p :
  holds_handle (proc1 s) → holds_handle (proc2 s) →
  holds_handle (proc1 (race_step (None, h1) (None, h2) s p)) ∧
  holds_handle (proc2 (race_step (None, h1) (None, h2) s p)).
Proof.
  intros H1 H2. destruct p; unfold race_step; cbn [fst snd].
  - pose proof (acq_step_holds_handle h1 (race_kernel s) (proc1 s) H1) as Hstep.
    by destruct (acq_step None h1 (race_kernel s) (proc1 s)).
  - pose proof (acq_step_holds_handle h2 (race_kernel s) (proc2 s) H2) as Hstep.
    by destruct (acq_step None h2 (race_kernel s) (proc2 s)).
Qed.

Lemma race_run_holds_handle h1 h2 sched s :
  holds_handle (proc1 s) → holds_handle (proc2 s) →
  holds_handle (proc1 (race_run (None, h1) (None, h2) sched s)) ∧
  holds_handle (proc2 (race_run (None, h1) (None, h2) sched s)).
Proof.
  unfold race_run. revert s.
  induction sched as [|p rest IH]; intros s H1 H2; cbn [foldl]; [done|].
  destruct (race_step_holds_handle h1 h2 s p H1 H2). by apply IH.
Qed.

(** C1, as the code has it: two processes start with the mutex absent and
    each runs the two steps of the acquisition, [CreateMutex] and then the
    [GetLastError] test; the system gives each call a handle.  Under every
    schedule that lets each process take its two steps, both processes end
    holding a handle with their flag computed, and exactly one of them has
    found itself the first instance. *)
Theorem instance_guard_exactly_one_first o1 o2 sched k e1 e2 :
  k !! kSingleInstanceMutexName = None →
  o1.1 = None → o2.1 = None →
  2 ≤ turns P1 sched → 2 ≤ turns P2 sched →
  let s := race_run o1 o2 sched (race_start k e1 e2) in
  ∃ first1 first2,
    acquired_as (proc1 s) first1 ∧ acquired_as (proc2 s) first2 ∧
    first1 = negb first2.
Proof.
  destruct o1 as [f1 h1'], o2 as [f2 h2']. cbn [fst].
  intros Hk -> -> Ht1 Ht2.
  set (s := race_run (None, h1') (None, h2') sched (race_start k e1 e2)).
  pose proof (race_inv_run (None, h1') (None, h2') sched _
                (race_inv_start k e1 e2 Hk)) as Hinv.
  destruct (race_run_steps_taken (None, h1') (None, h2') sched (race_start k e1 e2))
    as [Hs1 Hs2].
  destruct (race_run_holds_handle h1' h2' sched (race_start k e1 e2) I I)
    as [Hh1 Hh2].
  fold s in Hinv, Hs1, Hs2, Hh1, Hh2.
  change (steps_taken (proc1 (race_start k e1 e2))) with 0 in Hs1.
  change (steps_taken (proc2 (race_start k e1 e2))) with 0 in Hs2.
  assert (steps_taken (proc1 s) = 2) as Hdone1 by lia.
  assert (steps_taken (proc2 s) = 2) as Hdone2 by lia.
  clear Hs1 Hs2. unfold race_inv in Hinv.
  destruct (proc1 s) as [?|?|[h1|] b1]; try discriminate Hdone1;
    [|by destruct Hh1].
  destruct (proc2 s) as [?|?|[h2|] b2]; try discriminate Hdone2;
    [|by destruct Hh2].
  simpl in Hinv. destruct Hinv as [-> _].
  exists (negb (negb b2)), (negb b2). split; [|split].
  - exists h1. by rewrite negb_involutive.
  - exists h2. by rewrite negb_involutive.
  - done.
Qed.

Lemma instance_guard_exactly_one_first_witness :
  let s := race_run (None, 0x50%Z) (None, 0x64%Z) [P2; P1; P1; P2] (race_start ∅ 6 0) in
  ∃ first1 first2,
    acquired_as (proc1 s) first1 ∧ acquired_as (proc2 s) first2 ∧
    first1 = negb first2.
Proof.
  apply (instance_guard_exactly_one_first (None, 0x50%Z) (None, 0x64%Z)
           [P2; P1; P1; P2] ∅ 6 0);
    [apply lookup_empty|reflexivity|reflexivity|simpl; lia|simpl; lia].
Defined.

(** C1 as stated fails: the second process creates the mutex, the call of
    the first is refused with [ERROR_ACCESS_DENIED] and returns null; the
    test of line 58 looks at the last-error only, so both processes take
    themselves for the first instance. *)
Lemma instance_guard_both_first_on_refusal :
  let s := race_run (Some ERROR_ACCESS_DENIED, 0%Z) (None, 0x64%Z) [P2; P1; P1; P2]
             (race_start ∅ 6 0) in
  observes (proc1 s) true ∧ observes (proc2 s) true ∧
  ¬ ∃ first1 first2,
      observes (proc1 s) first1 ∧ observes (proc2 s) first2 ∧ first1 = negb first2.
Proof.
  cbv zeta.
  assert (race_run (Some ERROR_ACCESS_DENIED, 0%Z) (None, 0x64%Z) [P2; P1; P1; P2]
            (race_start ∅ 6 0)
          = {| race_kernel := {[ kSingleInstanceMutexName := 1%nat ]};
               proc1 := Acquired None false;
               proc2 := Acquired (Some 0x64%Z) false |}) as -> by (by vm_compute).
  cbn [proc1 proc2]. split; [by exists None|]. split; [by exists (Some 0x64%Z)|].
  intros (first1 & first2 & [h1 H1] & [h2 H2] & Heq).
  injection H1 as _ H1. injection H2 as _ H2.
  by destruct first1, first2.
Qed.

(** In the schedule of the witness the second process calls [CreateMutex]
    first and is the first instance. *)
Lemma instance_guard_second_wins :
  let s := race_run (None, 0x50%Z) (None, 0x64%Z) [P2; P1; P1; P2] (race_start ∅ 6 0) in
  proc1 s = Acquired (Some 0x50%Z) true ∧ proc2 s = Acquired (Some 0x64%Z) false.
Proof. by vm_compute. Qed.

End instance_guard.

(** ** Capability Bridge *)

Section capability_bridge.
Import FlutterWindow Examples.
Implicit Types (method_name : string) (faces : list LOGFONTW) (g : list (list Z))
  (ctl : Z → Z → Z → Z → option Z) (base : Z → Z → Z → Z → Z).

(** C7: a call on [system_fonts] with any method name other than
    [getSystemFonts] is answered with [NotImplemented], so neither with a
    success payload nor with an error; the global set is not touched. *)
Theorem system_fonts_handler_unknown_method method_name faces g :
  method_name ≠ "getSystemFonts" →
  let r := system_fonts_handler method_name faces g in
  r.1 = NotImplemented ∧ (∀ v, r.1 ≠ Success v) ∧
  (∀ code msg details, r.1 ≠ Error code msg details) ∧ r.2 = g.
Proof.
  intros Hne. unfold system_fonts_handler.
  destruct (String.eqb_spec method_name "getSystemFonts") as [|_]; [done|].
  simpl. done.
Qed.

Lemma system_fonts_handler_unknown_method_witness :
  let r := system_fonts_handler "unknownMethod" [] [] in
  r.1 = NotImplemented ∧ (∀ v, r.1 ≠ Success v) ∧
  (∀ code msg details, r.1 ≠ Error code msg details) ∧ r.2 = [].
Proof.
  apply (system_fonts_handler_unknown_method "unknownMethod" [] []). discriminate.
Defined.

(** C4, as the code has it: on the wake Signal and on the font-change
    notification the embedded runtime's hook is asked first.  When it
    produces a result the handler returns that result at once, and neither
    the bridge's switch nor the base handler runs; when it produces none the
    switch performs the action of the code and the base handler computes the
    result. *)
Theorem MessageHandler_reserved_codes ctl base hwnd message wparam lparam :
  message = WM_FONTCHANGE ∨ message = kWakeUpMessage →
  MessageHandler (Some ctl) base hwnd message wparam lparam =
    match ctl hwnd message wparam lparam with
    | Some result => Some ([], result)
    | None =>
        Some ([if (message =? WM_FONTCHANGE)%Z then ReloadSystemFonts
               else InvokeMethod "com.nailauncher/window_control" "wakeUp" None;
               BaseMessageHandler hwnd message wparam lparam],
              base hwnd message wparam lparam)
    end.
Proof.
  intros Hmsg. unfold MessageHandler.
  destruct (ctl hwnd message wparam lparam) as [result|]; [done|].
  destruct Hmsg as [-> | ->]; reflexivity.
Qed.

Lemma MessageHandler_reserved_codes_witness :
  MessageHandler (Some hook_handles_none) base_returns_0 1 kWakeUpMessage 0 0 =
    Some ([InvokeMethod "com.nailauncher/window_control" "wakeUp" None;
           BaseMessageHandler 1 kWakeUpMessage 0 0], 0%Z).
Proof.
  apply (MessageHandler_reserved_codes hook_handles_none base_returns_0 1 kWakeUpMessage 0 0).
  right. reflexivity.
Defined.

(** C4 as stated fails: with a hook that reports the message handled, the
    switch runs neither on the wake Signal nor on the font-change
    notification. *)
Lemma MessageHandler_hook_result_skips_switch :
  ¬ bridge_acted kWakeUpMessage
      (MessageHandler (Some hook_handles_all) base_returns_0 1 kWakeUpMessage 0 0) ∧
  ¬ bridge_acted WM_FONTCHANGE
      (MessageHandler (Some hook_handles_all) base_returns_0 1 WM_FONTCHANGE 0 0).
Proof.
  split; intros (effects & result & Heq & Hact); injection Heq as <- <-;
    destruct Hact as [[_ Hin]|[_ Hin]]; by apply elem_of_nil in Hin.
Qed.

(** Without a result from the hook the bridge does act on both codes. *)
Lemma MessageHandler_acts_without_hook_result ctl base hwnd message wparam lparam :
  message = WM_FONTCHANGE ∨ message = kWakeUpMessage →
  ctl hwnd message wparam lparam = None →
  bridge_acted message (MessageHandler (Some ctl) base hwnd message wparam lparam).
Proof.
  intros Hmsg Hnone. unfold MessageHandler. rewrite Hnone.
  destruct Hmsg as [-> | ->]; simpl; do 2 eexists; (split; [reflexivity|]).
  - left. split; [done|]. apply list_elem_of_here.
  - right. split; [done|]. apply list_elem_of_here.
Qed.

End capability_bridge.

(** ** The ordered set of face names *)

Section font_set.
Import FlutterWindow.
Implicit Types (a b c x y : list Z) (s : list (list Z)).

Lemma wstring_lt_irrefl a : wstring_lt a a = false.
Proof. induction a as [|u a IH]; simpl; [done|]. by rewrite Z.ltb_irrefl. Qed.

Lemma wstring_lt_trans a b c :
  wstring_lt a b = true → wstring_lt b c = true → wstring_lt a c = true.
Proof.
  revert b c. induction a as [|u a IH]; intros [|v b] [|w c]; simpl; try done.
  destruct (Z.ltb_spec u v), (Z.ltb_spec v u), (Z.ltb_spec v w), (Z.ltb_spec w v),
    (Z.ltb_spec u w), (Z.ltb_spec w u); try done; try lia.
  apply IH.
Qed.

Lemma wstring_lt_total a b :
  wstring_lt a b = false → wstring_lt b a = false → a = b.
Proof.
  revert b. induction a as [|u a IH]; intros [|v b]; simpl; try done.
  destruct (Z.ltb_spec u v), (Z.ltb_spec v u); try done; try lia.
  intros Hab Hba. assert (u = v) as -> by lia. f_equal. by apply IH.
Qed.

Lemma wstring_lt_asym a b : wstring_lt a b = true → wstring_lt b a = false.
Proof.
  intros Hab. destruct (wstring_lt b a) eqn:Hba; [|done].
  pose proof (wstring_lt_trans _ _ _ Hab Hba) as Haa.
  by rewrite wstring_lt_irrefl in Haa.
Qed.

Lemma elem_of_set_insert x y s : y ∈ set_insert x s ↔ y = x ∨ y ∈ s.
Proof.
  induction s as [|z s IH]; simpl.
  - rewrite list_elem_of_singleton, elem_of_nil. tauto.
  - destruct (wstring_lt x z) eqn:Hxz.
    + by rewrite elem_of_cons.
    + destruct (wstring_lt z x) eqn:Hzx.
      * rewrite !elem_of_cons, IH. tauto.
      * rewrite (wstring_lt_total x z Hxz Hzx), elem_of_cons. tauto.
Qed.

Lemma set_insert_sorted x s :
  StronglySorted wlt s → StronglySorted wlt (set_insert x s).
Proof.
  induction 1 as [|z s Hs IH Hz]; simpl.
  - repeat constructor.
  - destruct (wstring_lt x z) eqn:Hxz.
    + constructor; [by constructor|]. constructor; [done|].
      eapply Forall_impl; [exact Hz|]. intros y Hy. by eapply wstring_lt_trans.
    + destruct (wstring_lt z x) eqn:Hzx.
      * constructor; [done|]. apply Forall_forall. intros y Hy.
        apply elem_of_set_insert in Hy as [->|Hy]; [done|].
        rewrite Forall_forall in Hz. by apply Hz.
      * by constructor.
Qed.

Lemma sorted_NoDup s : StronglySorted wlt s → NoDup s.
Proof.
  induction 1 as [|z s Hs IH Hz]; constructor; [|done].
  intros Hin. rewrite Forall_forall in Hz. specialize (Hz z Hin).
  unfold wlt in Hz. by rewrite wstring_lt_irrefl in Hz.
Qed.

(** The iteration order of the set is a function of its elements. *)
Lemma sorted_same_elements s1 s2 :
  StronglySorted wlt s1 → StronglySorted wlt s2 →
  (∀ x, x ∈ s1 ↔ x ∈ s2) → s1 = s2.
Proof.
  intros H1. revert s2. induction H1 as [|z1 s1 Hs1 IH Hz1]; intros s2 H2 Heq.
  - destruct s2 as [|z2 s2]; [done|].
    exfalso. eapply not_elem_of_nil, Heq, list_elem_of_here.
  - destruct H2 as [|z2 s2 Hs2 Hz2].
    { exfalso. eapply not_elem_of_nil, Heq, list_elem_of_here. }
    rewrite Forall_forall in Hz1, Hz2.
    assert (z1 = z2) as ->.
    { assert (z1 ∈ z2 :: s2) as [?|Hin1]%elem_of_cons
        by (apply Heq, list_elem_of_here); [done|].
      assert (z2 ∈ z1 :: s1) as [?|Hin2]%elem_of_cons
        by (apply Heq, list_elem_of_here); [done|].
      pose proof (wstring_lt_asym _ _ (Hz1 _ Hin2)) as Hno.
      pose proof (Hz2 _ Hin1) as Hyes. unfold wlt in Hyes. congruence. }
    f_equal. apply IH; [done|]. intros x. split; intros Hin.
    + assert (x ∈ z2 :: s2) as [->|?]%elem_of_cons
        by (apply Heq, list_elem_of_further, Hin); [|done].
      pose proof (Hz1 _ Hin) as Hlt. unfold wlt in Hlt.
      by rewrite wstring_lt_irrefl in Hlt.
    + assert (x ∈ z2 :: s1) as [->|?]%elem_of_cons
        by (apply Heq, list_elem_of_further, Hin); [|done].
      pose proof (Hz2 _ Hin) as Hlt. unfold wlt in Hlt.
      by rewrite wstring_lt_irrefl in Hlt.
Qed.

End font_set.

(** ** UTF-16 to UTF-8 conversion *)

Section conversion.
Implicit Types (u v cp b : Z) (ws bytes : list Z).

Lemma utf8_encode_nonempty cp : utf8_encode cp ≠ [].
Proof. unfold utf8_encode. repeat case_match; done. Qed.

(** The first byte tells the length and the bytes give back the code point:
    no encoding is a prefix of another. *)
Lemma utf8_encode_prefix_free cp1 cp2 r1 r2 :
  utf8_encode cp1 ++ r1 = utf8_encode cp2 ++ r2 → cp1 = cp2 ∧ r1 = r2.
Proof.
  unfold utf8_encode.
  destruct (Z.ltb_spec cp1 0x80), (Z.ltb_spec cp1 0x800), (Z.ltb_spec cp1 0x10000);
    try lia;
    destruct (Z.ltb_spec cp2 0x80), (Z.ltb_spec cp2 0x800), (Z.ltb_spec cp2 0x10000);
    try lia; cbn [app]; intros Heq; split_lists;
    first [ exfalso; euclid | split; [euclid|congruence] ].
Qed.

Lemma utf8_concat_inj l1 l2 :
  concat (map utf8_encode l1) = concat (map utf8_encode l2) → l1 = l2.
Proof.
  revert l2. induction l1 as [|c1 l1 IH]; intros [|c2 l2]; simpl; [done| | |].
  - intros Heq. symmetry in Heq. apply app_eq_nil in Heq as [Heq _].
    by apply utf8_encode_nonempty in Heq.
  - intros Heq. apply app_eq_nil in Heq as [Heq _].
    by apply utf8_encode_nonempty in Heq.
  - intros [-> Heq]%utf8_encode_prefix_free. f_equal. by apply IH.
Qed.

Lemma is_high_surrogate_spec u :
  is_high_surrogate u = true ↔ (0xD800 ≤ u < 0xDC00)%Z.
Proof. unfold is_high_surrogate. rewrite andb_true_iff, Z.leb_le, Z.ltb_lt. done. Qed.

Lemma is_low_surrogate_spec u :
  is_low_surrogate u = true ↔ (0xDC00 ≤ u < 0xE000)%Z.
Proof. unfold is_low_surrogate. rewrite andb_true_iff, Z.leb_le, Z.ltb_lt. done. Qed.

(** What [utf16_decode] does at the head of a well-formed text. *)
Lemma wellformed_utf16_cons u rest :
  wellformed_utf16 (u :: rest) = true →
  (0 ≤ u < 0x10000)%Z ∧
  ((∃ v rest', rest = v :: rest' ∧ (0xD800 ≤ u < 0xDC00)%Z ∧ (0xDC00 ≤ v < 0xE000)%Z ∧
      wellformed_utf16 rest' = true ∧
      utf16_decode (u :: rest) =
        (0x10000 + (u - 0xD800) * 0x400 + (v - 0xDC00))%Z :: utf16_decode rest')
   ∨ (¬ (0xD800 ≤ u < 0xE000)%Z ∧ wellformed_utf16 rest = true ∧
      utf16_decode (u :: rest) = u :: utf16_decode rest)).
Proof.
  cbn [wellformed_utf16 utf16_decode].
  rewrite !andb_true_iff, Z.leb_le, Z.ltb_lt. intros [Hrange Hrest].
  split; [done|].
  destruct (is_high_surrogate u) eqn:Hhi.
  - apply is_high_surrogate_spec in Hhi. left.
    destruct rest as [|v rest']; [done|].
    apply andb_true_iff in Hrest as [Hlo Hwf]. rewrite Hlo.
    apply is_low_surrogate_spec in Hlo. by exists v, rest'.
  - right. apply andb_true_iff in Hrest as [Hlo Hwf].
    apply negb_true_iff in Hlo. rewrite Hlo. split; [|done].
    intros Hsur. destruct (decide (u < 0xDC00)%Z).
    + assert (is_high_surrogate u = true) by (apply is_high_surrogate_spec; lia).
      congruence.
    + assert (is_low_surrogate u = true) by (apply is_low_surrogate_spec; lia).
      congruence.
Qed.

Lemma utf16_decode_inj_bounded (n : nat) ws1 ws2 :
  length ws1 ≤ n →
  wellformed_utf16 ws1 = true → wellformed_utf16 ws2 = true →
  utf16_decode ws1 = utf16_decode ws2 → ws1 = ws2.
Proof.
  revert ws1 ws2. induction n as [|n IH]; intros ws1 ws2 Hlen Hwf1 Hwf2 Heq.
  - destruct ws1; [|simpl in Hlen; lia].
    destruct ws2 as [|u2 r2]; [done|].
    apply wellformed_utf16_cons in Hwf2
      as [_ [(? & ? & _ & _ & _ & _ & Hd)|(_ & _ & Hd)]];
      rewrite Hd in Heq; discriminate Heq.
  - destruct ws1 as [|u1 r1].
    { destruct ws2 as [|u2 r2]; [done|].
      apply wellformed_utf16_cons in Hwf2
        as [_ [(? & ? & _ & _ & _ & _ & Hd)|(_ & _ & Hd)]];
        rewrite Hd in Heq; discriminate Heq. }
    destruct ws2 as [|u2 r2].
    { apply wellformed_utf16_cons in Hwf1
        as [_ [(? & ? & _ & _ & _ & _ & Hd)|(_ & _ & Hd)]];
        rewrite Hd in Heq; discriminate Heq. }
    simpl in Hlen.
    apply wellformed_utf16_cons in Hwf1
      as [Hr1 [(v1 & r1' & -> & Hu1 & Hv1 & Hwf1 & Hd1)|(Hu1 & Hwf1 & Hd1)]];
    apply wellformed_utf16_cons in Hwf2
      as [Hr2 [(v2 & r2' & -> & Hu2 & Hv2 & Hwf2 & Hd2)|(Hu2 & Hwf2 & Hd2)]];
    rewrite Hd1, Hd2 in Heq; injection Heq as Hcp Htail.
    + assert (u1 = u2 ∧ v1 = v2) as [-> ->] by lia.
      do 2 f_equal. apply IH; [simpl in Hlen; lia|done..].
    + lia.
    + lia.
    + subst u2. f_equal. apply IH; [lia|done..].
Qed.

Lemma utf16_decode_inj ws1 ws2 :
  wellformed_utf16 ws1 = true → wellformed_utf16 ws2 = true →
  utf16_decode ws1 = utf16_decode ws2 → ws1 = ws2.
Proof. by apply (utf16_decode_inj_bounded (length ws1)). Qed.

(** On well-formed names the conversion loses nothing. *)
Lemma utf8_of_wide_inj ws1 ws2 :
  wellformed_utf16 (c_str ws1) = true → wellformed_utf16 (c_str ws2) = true →
  utf8_of_wide ws1 = utf8_of_wide ws2 → c_str ws1 = c_str ws2.
Proof.
  intros Hwf1 Hwf2 Heq. apply utf16_decode_inj; [done..|].
  by apply utf8_concat_inj.
Qed.

Lemma utf8_encode_head cp :
  cp ≠ 0x40%Z → ∃ b rest, utf8_encode cp = b :: rest ∧ b ≠ 0x40%Z.
Proof.
  intros Hcp. unfold utf8_encode.
  destruct (Z.ltb_spec cp 0x80), (Z.ltb_spec cp 0x800), (Z.ltb_spec cp 0x10000);
    try lia; do 2 eexists; (split; [reflexivity|euclid]).
Qed.

Lemma utf16_decode_head u rest :
  u ≠ 0x40%Z → ∃ cp cps, utf16_decode (u :: rest) = cp :: cps ∧ cp ≠ 0x40%Z.
Proof.
  intros Hu. cbn [utf16_decode].
  destruct (is_high_surrogate u) eqn:Hhi.
  - apply is_high_surrogate_spec in Hhi. destruct rest as [|v rest']; [by eauto|].
    destruct (is_low_surrogate v) eqn:Hlo; [|by eauto].
    apply is_low_surrogate_spec in Hlo. do 2 eexists. split; [reflexivity|lia].
  - destruct (is_low_surrogate u); by eauto.
Qed.

(** The conversion cannot produce a leading [@] from a name that has
    none. *)
Lemma utf8_of_wide_head ws :
  head (c_str ws) ≠ Some 0x40%Z → head (utf8_of_wide ws) ≠ Some 0x40%Z.
Proof.
  unfold utf8_of_wide. destruct (c_str ws) as [|u rest]; [done|].
  change (head (u :: rest)) with (Some u). intros Hu. assert (u ≠ 0x40%Z) as Hne by congruence.
  destruct (utf16_decode_head u rest Hne) as (cp & cps & -> & Hcp).
  destruct (utf8_encode_head cp Hcp) as (b & bs & Hb & Hb').
  cbn [map concat]. rewrite Hb. simpl. congruence.
Qed.

End conversion.

(** ** Font Enumerator *)

Section font_enumerator.
Import FlutterWindow Examples.
Implicit Types (f : LOGFONTW) (faces : list LOGFONTW) (g s : list (list Z))
  (name entry : list Z).

(** The callback always asks for the next face, so the enumeration visits
    every face: the set afterwards holds what it held before and the name of
    every face that is not vertical. *)
Lemma elem_of_EnumFontFamiliesExW faces g name :
  name ∈ EnumFontFamiliesExW faces EnumFontFamExProc g ↔
  name ∈ g ∨ ∃ f, f ∈ faces ∧ nth 0 (lfFaceName f) 0%Z ≠ vertical_marker ∧
                  name = face_name f.
Proof.
  revert g. induction faces as [|f rest IH]; intros g; simpl.
  - split; [by left|]. intros [?|(f & Hf & _)]; [done|]. by apply elem_of_nil in Hf.
  - unfold EnumFontFamExProc.
    destruct (Z.eqb_spec (nth 0 (lfFaceName f) 0%Z) vertical_marker) as [Hv|Hv]; simpl.
    + rewrite IH. split.
      * intros [?|(f' & Hf' & Hnv & ->)]; [by left|].
        right. exists f'. split; [by apply list_elem_of_further|done].
      * intros [?|(f' & [->|Hf']%elem_of_cons & Hnv & ->)]; [by left|done|].
        right. by exists f'.
    + rewrite IH, elem_of_set_insert. split.
      * intros [[->|?]|(f' & Hf' & Hnv & ->)]; [|by left|].
        -- right. exists f. split; [apply list_elem_of_here|done].
        -- right. exists f'. split; [by apply list_elem_of_further|done].
      * intros [?|(f' & [->|Hf']%elem_of_cons & Hnv & ->)]; [by left; right| |].
        -- by left; left.
        -- right. by exists f'.
Qed.

(** The callback never stops the enumeration. *)
Lemma EnumFontFamiliesExW_cons f rest g :
  EnumFontFamiliesExW (f :: rest) EnumFontFamExProc g =
  EnumFontFamiliesExW rest EnumFontFamExProc (EnumFontFamExProc f g).1.
Proof.
  simpl. destruct (EnumFontFamExProc f g) as [g' go_on] eqn:E.
  assert (go_on = 1%Z) as ->; [|done].
  unfold EnumFontFamExProc in E. by case_match; injection E as _ <-.
Qed.

Lemma EnumFontFamiliesExW_sorted faces g :
  StronglySorted wlt g →
  StronglySorted wlt (EnumFontFamiliesExW faces EnumFontFamExProc g).
Proof.
  revert g. induction faces as [|f rest IH]; intros g Hg; [done|].
  rewrite EnumFontFamiliesExW_cons. apply IH.
  unfold EnumFontFamExProc. case_match; simpl; [|done].
  by apply set_insert_sorted.
Qed.

(** The set after an enumeration that started from the empty set depends
    only on which faces were reported, not on their order or number. *)
Lemma EnumFontFamiliesExW_same_faces faces1 faces2 :
  (∀ f, f ∈ faces1 ↔ f ∈ faces2) →
  EnumFontFamiliesExW faces1 EnumFontFamExProc [] =
  EnumFontFamiliesExW faces2 EnumFontFamExProc [].
Proof.
  intros Hsame. apply sorted_same_elements.
  - apply EnumFontFamiliesExW_sorted. constructor.
  - apply EnumFontFamiliesExW_sorted. constructor.
  - intros name. rewrite !elem_of_EnumFontFamiliesExW.
    split; intros [?|(f & Hf & ?)]; [by left| |by left|];
      right; exists f; (split; [by apply Hsame|done]).
Qed.

(** The buffer dance of the loop body yields exactly the converted name. *)
Lemma convert_and_push_spec result name :
  convert_and_push result name = result ++ [utf8_of_wide name].
Proof.
  unfold convert_and_push, WideCharToMultiByte_size, WideCharToMultiByte_fill.
  set (u := utf8_of_wide name).
  destruct (Z.ltb_spec 0 (Z.of_nat (length u) + 1)) as [_|?]; [|lia].
  replace (Z.to_nat (Z.of_nat (length u) + 1)) with (length (u ++ [0%Z]))
    by (rewrite length_app; simpl; lia).
  rewrite firstn_all.
  replace (Z.to_nat (Z.of_nat (length u) + 1 - 1)) with (length u) by lia.
  by rewrite take_app_length.
Qed.

Lemma foldl_convert_and_push result s :
  foldl convert_and_push result s = result ++ (utf8_of_wide <$> s).
Proof.
  revert result. induction s as [|name s IH]; intros result; simpl.
  - by rewrite app_nil_r.
  - rewrite IH, convert_and_push_spec, <- app_assoc. done.
Qed.

Lemma GetSystemFonts_result faces g :
  (GetSystemFonts faces g).1 =
  utf8_of_wide <$> EnumFontFamiliesExW faces EnumFontFamExProc [].
Proof. unfold GetSystemFonts. simpl. by rewrite foldl_convert_and_push. Qed.

(** C9: when the system reports the same faces to both calls, in whatever
    order and however often, the second of two successive calls of
    [GetSystemFonts] returns the list the first returned, entry by entry,
    whatever the global set held before the first call and whatever the
    first call left in it. *)
Theorem GetSystemFonts_twice_same_list faces1 faces2 g :
  (∀ f, f ∈ faces1 ↔ f ∈ faces2) →
  (GetSystemFonts faces2 (GetSystemFonts faces1 g).2).1 = (GetSystemFonts faces1 g).1 ∧
  ∀ g', (GetSystemFonts faces2 g').1 = (GetSystemFonts faces1 g).1.
Proof.
  intros Hsame. rewrite !GetSystemFonts_result.
  rewrite (EnumFontFamiliesExW_same_faces faces1 faces2 Hsame).
  split; [done|]. intros g'. by rewrite GetSystemFonts_result.
Qed.

Lemma GetSystemFonts_twice_same_list_witness :
  (∀ f, f ∈ sample_faces ↔ f ∈ sample_faces_reordered) ∧
  (GetSystemFonts sample_faces_reordered (GetSystemFonts sample_faces [L "stale"]).2).1
  = (GetSystemFonts sample_faces [L "stale"]).1 ∧
  ∀ g', (GetSystemFonts sample_faces_reordered g').1
        = (GetSystemFonts sample_faces [L "stale"]).1.
Proof.
  assert (∀ f, f ∈ sample_faces ↔ f ∈ sample_faces_reordered) as Hsame
    by (intros f; unfold sample_faces, sample_faces_reordered;
        rewrite !elem_of_cons; tauto).
  split; [exact Hsame|].
  exact (GetSystemFonts_twice_same_list sample_faces sample_faces_reordered [L "stale"] Hsame).
Defined.

Lemma face_name_head f :
  nth 0 (lfFaceName f) 0%Z ≠ vertical_marker → ¬ begins_with_marker (face_name f).
Proof.
  unfold face_name, begins_with_marker. destruct (lfFaceName f) as [|c rest]; simpl; [done|].
  destruct (c =? 0)%Z; simpl; congruence.
Qed.

(** C5, as the code has it: no entry of the returned list begins with the
    marker [@]; and when every reported face name is well-formed UTF-16 no
    two entries are equal. *)
Theorem GetSystemFonts_unmarked_and_distinct faces g :
  (∀ entry, entry ∈ (GetSystemFonts faces g).1 → ¬ begins_with_marker entry) ∧
  ((∀ f, f ∈ faces → wellformed_utf16 (face_name f) = true) →
   NoDup (GetSystemFonts faces g).1).
Proof.
  rewrite GetSystemFonts_result. split.
  - intros entry (name & -> & Hname)%list_elem_of_fmap.
    apply elem_of_EnumFontFamiliesExW in Hname
      as [Hin|(f & Hf & Hnv & ->)]; [by apply elem_of_nil in Hin|].
    apply utf8_of_wide_head. unfold face_name. rewrite c_str_idemp.
    by apply face_name_head.
  - intros Hwf. apply NoDup_fmap_2_strong.
    + intros x y Hx Hy Heq.
      apply elem_of_EnumFontFamiliesExW in Hx
        as [Hin|(fx & Hfx & _ & ->)]; [by apply elem_of_nil in Hin|].
      apply elem_of_EnumFontFamiliesExW in Hy
        as [Hin|(fy & Hfy & _ & ->)]; [by apply elem_of_nil in Hin|].
      unfold face_name in *. rewrite <- (c_str_idemp (lfFaceName fx)).
      rewrite <- (c_str_idemp (lfFaceName fy)).
      apply utf8_of_wide_inj; [rewrite c_str_idemp; by apply Hwf..|done].
    + apply sorted_NoDup, EnumFontFamiliesExW_sorted. constructor.
Qed.

Lemma GetSystemFonts_unmarked_and_distinct_witness :
  (∀ f, f ∈ sample_faces → wellformed_utf16 (face_name f) = true) ∧
  NoDup (GetSystemFonts sample_faces []).1 ∧
  (GetSystemFonts sample_faces []).1 =
    [ [65; 114; 105; 97; 108]; [67; 111; 110; 115; 111; 108; 97; 115];
      [83; 105; 109; 83; 117; 110] ]%Z.
Proof.
  assert (∀ f, f ∈ sample_faces → wellformed_utf16 (face_name f) = true) as Hwf.
  { intros f Hf. unfold sample_faces in Hf. rewrite !elem_of_cons in Hf.
    destruct Hf as [->|[->|[->|[->|[->|Hf]]]]]; [reflexivity..|].
    by apply elem_of_nil in Hf. }
  split; [exact Hwf|]. split; [|reflexivity].
  exact (proj2 (GetSystemFonts_unmarked_and_distinct sample_faces []) Hwf).
Defined.

(** C5 as stated fails: on [surrogate_faces] the two names differ, both
    pass the filter, and both convert to the bytes of U+FFFD. *)
Lemma GetSystemFonts_duplicate_after_conversion :
  (GetSystemFonts surrogate_faces []).1 = [ [0xEF; 0xBF; 0xBD]; [0xEF; 0xBF; 0xBD] ]%Z ∧
  ¬ NoDup (GetSystemFonts surrogate_faces []).1.
Proof.
  assert ((GetSystemFonts surrogate_faces []).1
          = [ [0xEF; 0xBF; 0xBD]; [0xEF; 0xBF; 0xBD] ]%Z) as Heq by reflexivity.
  split; [exact Heq|]. rewrite Heq. intros Hnd.
  apply NoDup_cons in Hnd as [Hnotin _]. apply Hnotin, list_elem_of_here.
Qed.

End font_enumerator.

(** * Further properties of main.cpp *)

Section locator_edges.
Import Main Examples.
Implicit Types (d : Desktop) (fragment : list Z) (h hwnd : Z).

Lemma first_such_elem (P : Z → Prop) enum h :
  first_such P enum (Some h) → h ∈ enum ∧ P h.
Proof.
  intros (pre & post & -> & HP & _). split; [|done].
  apply elem_of_app. right. apply list_elem_of_here.
Qed.

(** X1: When no title is longer than the buffer, the locator returns the first
    window whose whole title contains the fragment, and none when there is
    no such window. *)
Theorem FindByTitleContains_short_titles d fragment :
  (∀ h, h ∈ zorder d → length (caption d h) ≤ 255) →
  first_such (λ h, contains fragment (caption d h)) (zorder d)
    (FindByTitleContains fragment d).
Proof.
  intros Hshort.
  pose proof (scan_windows_first d fragment (zorder d)) as Hfirst.
  unfold FindByTitleContains.
  destruct (scan_windows d fragment (zorder d)) as [h|]; simpl in *.
  - destruct Hfirst as (pre & post & Heq & HP & Hpre).
    assert (∀ h', h' ∈ pre ++ h :: post → take 255 (caption d h') = caption d h')
      as Hfull.
    { intros h' Hin. apply take_ge. apply Hshort. by rewrite Heq. }
    exists pre, post. split; [done|]. split.
    + rewrite <- Hfull; [done|]. apply elem_of_app. right. apply list_elem_of_here.
    + intros h' Hin. rewrite <- Hfull; [by apply Hpre|].
      apply elem_of_app. by left.
  - intros h Hin. rewrite <- (take_ge (caption d h) 255); [by apply Hfirst|].
    by apply Hshort.
Qed.

Lemma FindByTitleContains_short_titles_witness :
  (∀ h, h ∈ zorder launcher_desktop → length (caption launcher_desktop h) ≤ 255) ∧
  first_such (λ h, contains (L "NAI Launcher") (caption launcher_desktop h))
    (zorder launcher_desktop) (FindByTitleContains (L "NAI Launcher") launcher_desktop).
Proof.
  assert (∀ h, h ∈ zorder launcher_desktop → length (caption launcher_desktop h) ≤ 255)
    as Hshort.
  { intros h Hin. simpl in Hin. rewrite !elem_of_cons in Hin.
    destruct Hin as [->|[->|[->|Hin]]]; [vm_compute; lia..|].
    by apply elem_of_nil in Hin. }
  split; [exact Hshort|].
  exact (FindByTitleContains_short_titles launcher_desktop (L "NAI Launcher") Hshort).
Defined.

(** X2: For a fragment that is not empty, the handle the locator returns is
    one of the enumerated handles, a window exists behind it, and the title
    of that window contains the fragment. *)
Theorem FindByTitleContains_found_is_live d fragment hwnd :
  fragment ≠ [] →
  FindByTitleContains fragment d = Some hwnd →
  hwnd ∈ zorder d ∧ is_Some (windows d !! hwnd) ∧ contains fragment (caption d hwnd).
Proof.
  intros Hne Hfound.
  pose proof (scan_windows_first d fragment (zorder d)) as Hfirst.
  unfold FindByTitleContains in Hfound. rewrite Hfound in Hfirst.
  apply first_such_elem in Hfirst as [Hin [i Hi]]. split; [done|].
  assert (contains fragment (caption d hwnd)) as Hc
    by (exists i; by eapply occurs_at_take).
  split; [|done].
  apply contains_nonempty in Hc; [|done].
  unfold caption in Hc. by destruct (windows d !! hwnd).
Qed.

Lemma FindByTitleContains_found_is_live_witness :
  L "NAI Launcher" ≠ [] ∧
  FindByTitleContains (L "NAI Launcher") launcher_desktop = Some 12%Z ∧
  12%Z ∈ zorder launcher_desktop ∧ is_Some (windows launcher_desktop !! 12%Z) ∧
  contains (L "NAI Launcher") (caption launcher_desktop 12).
Proof.
  assert (L "NAI Launcher" ≠ []) as Hne by discriminate.
  assert (FindByTitleContains (L "NAI Launcher") launcher_desktop = Some 12%Z) as Hfound
    by (vm_compute; reflexivity).
  split; [exact Hne|]. split; [exact Hfound|].
  exact (FindByTitleContains_found_is_live launcher_desktop (L "NAI Launcher") 12
           Hne Hfound).
Defined.

End locator_edges.

Section notifier_effects.
Import Main Examples.
Implicit Types (d : Desktop) (h hwnd : Z).

Lemma scan_windows_none d fragment enum :
  (∀ h, h ∈ enum → ¬ contains fragment (take 255 (caption d h))) →
  scan_windows d fragment enum = None.
Proof.
  intros Hnone.
  pose proof (scan_windows_first d fragment enum) as Hfirst.
  destruct (scan_windows d fragment enum) as [h|]; [|done].
  apply first_such_elem in Hfirst as [Hin HP]. by apply Hnone in HP.
Qed.

(** X3: When no window shows the application name in the first 255 characters
    of its title, [WakeUpExistingWindow] changes nothing on the desktop: no
    window is restored, the foreground stays, no message is sent. *)
Theorem WakeUpExistingWindow_no_match_is_noop d :
  (∀ h, h ∈ zorder d → ¬ contains (L "NAI Launcher") (take 255 (caption d h))) →
  WakeUpExistingWindow d = d.
Proof.
  intros Hnone. unfold WakeUpExistingWindow, FindExistingFlutterWindow,
    FindByTitleContains. by rewrite scan_windows_none.
Qed.

Lemma no_occurrence_check t s :
  forallb (λ i, negb (starts_with t (drop i s))) (seq 0 (S (length s))) = true →
  ¬ contains t s.
Proof.
  intros Hall [i Hi].
  pose proof (no_early_occurrence t s (S (length s)) Hall i Hi) as Hge.
  apply occurs_at_drop in Hi as [Hle _]. lia.
Qed.

Lemma WakeUpExistingWindow_no_match_is_noop_witness :
  (∀ h, h ∈ zorder other_desktop →
        ¬ contains (L "NAI Launcher") (take 255 (caption other_desktop h))) ∧
  WakeUpExistingWindow other_desktop = other_desktop.
Proof.
  assert (∀ h, h ∈ zorder other_desktop →
               ¬ contains (L "NAI Launcher") (take 255 (caption other_desktop h)))
    as Hnone.
  { intros h Hin. simpl in Hin. rewrite !elem_of_cons in Hin.
    destruct Hin as [->|[->|Hin]]; [| |by apply elem_of_nil in Hin];
      apply no_occurrence_check; vm_compute; reflexivity. }
  split; [exact Hnone|].
  exact (WakeUpExistingWindow_no_match_is_noop other_desktop Hnone).
Defined.

(** X4: The located window afterwards: it is not minimized, its title is as
    before, and it is the foreground window when the system allows this
    process to set the foreground. *)
Theorem WakeUpExistingWindow_restores_and_raises d hwnd :
  FindExistingFlutterWindow d = Some hwnd →
  let d' := WakeUpExistingWindow d in
  IsIconic d' hwnd = false ∧ caption d' hwnd = caption d hwnd ∧
  (foreground_allowed d = true → foreground d' = Some hwnd).
Proof.
  intros Hfound. destruct (FindExistingFlutterWindow_exists d hwnd Hfound) as [w Hw].
  unfold WakeUpExistingWindow. rewrite Hfound.
  set (d1 := if IsIconic d hwnd then ShowWindow d hwnd SW_RESTORE else d).
  assert (∃ w1, windows d1 !! hwnd = Some w1 ∧ wnd_text w1 = wnd_text w ∧
                wnd_iconic w1 = false) as (w1 & Hw1 & Ht1 & Hi1).
  { subst d1. unfold IsIconic. rewrite Hw. destruct (wnd_iconic w) eqn:Hic.
    - destruct (windows_ShowWindow_restore d hwnd w Hw) as (w' & ? & _ & _ & ? & ?).
      by exists w'.
    - by exists w. }
  assert (foreground_allowed d1 = foreground_allowed d) as Ha1.
  { subst d1. by destruct (IsIconic d hwnd). }
  clearbody d1. unfold IsIconic, caption, SendMessage, SetForegroundWindow.
  rewrite Ha1, Hw1, Hw. rewrite bool_decide_eq_true_2 by by eexists.
  destruct (foreground_allowed d); simpl;
    rewrite lookup_alter_eq, Hw1; simpl; rewrite Ht1, Hi1; done.
Qed.

Lemma WakeUpExistingWindow_restores_and_raises_witness :
  FindExistingFlutterWindow launcher_desktop = Some 12%Z ∧
  IsIconic launcher_desktop 12 = true ∧
  let d' := WakeUpExistingWindow launcher_desktop in
  IsIconic d' 12 = false ∧ caption d' 12 = caption launcher_desktop 12 ∧
  foreground d' = Some 12%Z.
Proof.
  assert (FindExistingFlutterWindow launcher_desktop = Some 12%Z) as Hfound
    by (vm_compute; reflexivity).
  split; [exact Hfound|]. split; [reflexivity|].
  pose proof (WakeUpExistingWindow_restores_and_raises launcher_desktop 12 Hfound)
    as Hwake.
  cbv zeta in Hwake. destruct Hwake as (Hic & Hcap & Hfg).
  cbv zeta. split; [exact Hic|]. split; [exact Hcap|exact (Hfg eq_refl)].
Defined.



End notifier_effects.

Section startup_paths.
Import Main Examples.
Implicit Types (env : StartupEnv) (k : gmap (list Z) nat) (d : Desktop) (n : nat).

(** X6: A start while the mutex is held elsewhere, with a handle given: the
    program wakes the existing window and exits with [EXIT_SUCCESS], whether
    or not a window was found; it creates no window and runs no message
    loop; it closes its handle, and the kernel's table is as it found it. *)
Theorem wWinMain_later_instance env k d n :
  k !! kSingleInstanceMutexName = Some (S n) →
  mutex_failure env = None →
  let o := wWinMain env k d in
  exit_code o = EXIT_SUCCESS ∧
  trace o = console_events env
            ++ [EvCreateMutex kSingleInstanceMutexName; EvWakeUpExistingWindow;
                EvCloseHandle (mutex_handle env)] ∧
  kernel_after o = k ∧
  desktop_after o = WakeUpExistingWindow d.
Proof.
  intros Hk Hok. unfold wWinMain, CreateMutex. rewrite Hok, Hk. simpl.
  split; [done|]. split; [by rewrite <- app_assoc|]. split; [|done].
  unfold CloseHandle. rewrite lookup_insert_eq, insert_insert_eq.
  by apply insert_id.
Qed.

Lemma wWinMain_later_instance_witness :
  let o := wWinMain plain_env held_once other_desktop in
  exit_code o = EXIT_SUCCESS ∧
  trace o = [EvCreateAndAttachConsole; EvCreateMutex kSingleInstanceMutexName;
             EvWakeUpExistingWindow; EvCloseHandle 0x1F4] ∧
  kernel_after o = held_once ∧
  desktop_after o = WakeUpExistingWindow other_desktop.
Proof.
  apply (wWinMain_later_instance plain_env held_once other_desktop 0);
    [apply lookup_singleton_eq|reflexivity].
Defined.

(** X7: A start with the mutex absent, a handle given and the window created:
    the program creates the mutex, initializes COM, creates the window, and
    translates and dispatches each message in arrival order until
    [GetMessage] reports the quit; then it closes the handle, which destroys
    the mutex, uninitializes COM and exits with [EXIT_SUCCESS].  The kernel's
    table is again as before the start, and the desktop was never touched by
    the wake path. *)
Theorem wWinMain_first_instance_run env k d :
  k !! kSingleInstanceMutexName = None →
  mutex_failure env = None → window_create_ok env = true →
  let o := wWinMain env k d in
  exit_code o = EXIT_SUCCESS ∧
  trace o = console_events env
            ++ [EvCreateMutex kSingleInstanceMutexName; EvCoInitializeEx;
                EvWindowCreate (L "NAI Launcher") true; EvSetQuitOnClose]
            ++ message_loop (pending_messages env)
            ++ [EvCloseHandle (mutex_handle env); EvCoUninitialize] ∧
  kernel_after o = k ∧ desktop_after o = d.
Proof.
  intros Hk Hok Hwin. unfold wWinMain, CreateMutex. rewrite Hok, Hk, Hwin. simpl.
  split; [done|]. split; [by rewrite <- !app_assoc|]. split; [|done].
  unfold CloseHandle. rewrite lookup_insert_eq. by apply delete_insert_id.
Qed.

Lemma wWinMain_first_instance_run_witness :
  let o := wWinMain plain_env ∅ other_desktop in
  exit_code o = EXIT_SUCCESS ∧
  trace o = console_events plain_env
            ++ [EvCreateMutex kSingleInstanceMutexName; EvCoInitializeEx;
                EvWindowCreate (L "NAI Launcher") true; EvSetQuitOnClose]
            ++ message_loop (pending_messages plain_env)
            ++ [EvCloseHandle (mutex_handle plain_env); EvCoUninitialize] ∧
  kernel_after o = ∅ ∧ desktop_after o = other_desktop.
Proof.
  apply (wWinMain_first_instance_run plain_env ∅ other_desktop);
    [apply lookup_empty|reflexivity|reflexivity].
Defined.

End startup_paths.

Section race_winner.
Import Main.
Implicit Types (s : Race) (p q : Proc) (sched : list Proc) (k : gmap (list Z) nat).

(** Once a process holds a handle, the flag it has or will compute does not
    change, whatever either process does next. *)
Lemma race_step_flag_stable o1 o2 s q p b :
  flag_of (proc_of p s) = Some b →
  flag_of (proc_of p (race_step o1 o2 s q)) = Some b.
Proof.
  destruct s as [k a1 a2], o1 as [f1 h1], o2 as [f2 h2].
  destruct p, q; unfold race_step, acq_step, proc_of; cbn [proc1 proc2 race_kernel fst snd];
    try done.
  - destruct a1 as [e|[h|] e|[h|] c]; try done.
  - by destruct a2 as [e|h e|h c]; [destruct (CreateMutex k f2 h2 _) as [[? ?] ?]|..].
  - by destruct a1 as [e|h e|h c]; [destruct (CreateMutex k f1 h1 _) as [[? ?] ?]|..].
  - destruct a2 as [e|[h|] e|[h|] c]; try done.
Qed.

Lemma race_run_flag_stable o1 o2 sched s p b :
  flag_of (proc_of p s) = Some b →
  flag_of (proc_of p (race_run o1 o2 sched s)) = Some b.
Proof.
  unfold race_run. revert s.
  induction sched as [|q rest IH]; intros s Hflag; cbn [foldl]; [done|].
  by apply IH, race_step_flag_stable.
Qed.

(** X9: The race is decided by the order of the two [CreateMutex] calls alone:
    under every schedule that lets each process take its two steps, the
    process scheduled first is the one that ends as the first instance and
    the other ends as a later instance, however the remaining steps
    interleave. *)
Theorem instance_guard_first_caller_wins h1 h2 p sched k e1 e2 :
  k !! kSingleInstanceMutexName = None →
  2 ≤ turns P1 (p :: sched) → 2 ≤ turns P2 (p :: sched) →
  let s := race_run (None, h1) (None, h2) (p :: sched) (race_start k e1 e2) in
  acquired_as (proc_of p s) true ∧ acquired_as (proc_of (other_proc p) s) false.
Proof.
  intros Hk Ht1 Ht2.
  set (s := race_run (None, h1) (None, h2) (p :: sched) (race_start k e1 e2)).
  pose proof (race_inv_run (None, h1) (None, h2) (p :: sched) _
                (race_inv_start k e1 e2 Hk)) as Hinv.
  destruct (race_run_steps_taken (None, h1) (None, h2) (p :: sched)
              (race_start k e1 e2)) as [Hs1 Hs2].
  destruct (race_run_holds_handle h1 h2 (p :: sched) (race_start k e1 e2) I I)
    as [Hh1 Hh2].
  assert (flag_of (proc_of p s) = Some false) as Hwin.
  { subst s. unfold race_run. cbn [foldl].
    apply (race_run_flag_stable (None, h1) (None, h2) sched).
    destruct p; unfold race_step, race_start, acq_step, CreateMutex;
      cbn [proc1 proc2 race_kernel fst snd]; by rewrite Hk. }
  fold s in Hinv, Hs1, Hs2, Hh1, Hh2.
  change (steps_taken (proc1 (race_start k e1 e2))) with 0 in Hs1.
  change (steps_taken (proc2 (race_start k e1 e2))) with 0 in Hs2.
  assert (steps_taken (proc1 s) = 2) as Hdone1 by lia.
  assert (steps_taken (proc2 s) = 2) as Hdone2 by lia.
  clear Hs1 Hs2. unfold race_inv in Hinv. clearbody s.
  destruct s as [k' a1 a2]. cbn [proc1 proc2 race_kernel] in *.
  destruct a1 as [?|?|[g1|] b1]; try discriminate Hdone1; [|by destruct Hh1].
  destruct a2 as [?|?|[g2|] b2]; try discriminate Hdone2; [|by destruct Hh2].
  simpl in Hinv. destruct Hinv as [-> _].
  destruct p; cbn [proc_of other_proc proc1 proc2] in *; simpl in Hwin.
  - injection Hwin as Hb. apply negb_false_iff in Hb as ->.
    split; [by exists g1|by exists g2].
  - injection Hwin as ->. split; [by exists g2|by exists g1].
Qed.

Lemma instance_guard_first_caller_wins_witness :
  let s := race_run (None, 0x50%Z) (None, 0x64%Z) [P2; P1; P1; P2] (race_start ∅ 6 0) in
  acquired_as (proc2 s) true ∧ acquired_as (proc1 s) false.
Proof.
  apply (instance_guard_first_caller_wins 0x50 0x64 P2 [P1; P1; P2] ∅ 6 0);
    [apply lookup_empty|simpl; lia|simpl; lia].
Defined.

End race_winner.

(** * Further properties of flutter_window.cpp *)

Section catalog_contents.
Import FlutterWindow Examples.
Implicit Types (f : LOGFONTW) (faces : list LOGFONTW) (g : list (list Z))
  (name entry ws : list Z) (u cp : Z).

(** X10: What [GetSystemFonts] returns and leaves behind, whatever the global
    set held before: the global set holds exactly the names of the reported
    faces that do not begin with the marker, in strictly increasing
    code-unit order, and the returned vector is the UTF-8 conversion of
    these names, one entry per name and in that order. *)
Theorem GetSystemFonts_catalog faces g :
  let '(result, names) := GetSystemFonts faces g in
  result = utf8_of_wide <$> names ∧
  StronglySorted wlt names ∧
  ∀ name, name ∈ names ↔
          ∃ f, f ∈ faces ∧ nth 0 (lfFaceName f) 0%Z ≠ vertical_marker ∧
               name = face_name f.
Proof.
  pose proof (GetSystemFonts_result faces g) as Hres.
  unfold GetSystemFonts in *. cbn [fst] in Hres. unfold set_clear in *.
  split; [done|]. split.
  - apply EnumFontFamiliesExW_sorted. constructor.
  - intros name. rewrite elem_of_EnumFontFamiliesExW. split.
    + intros [Hin|?]; [by apply elem_of_nil in Hin|done].
    + by right.
Qed.

(** X11: When every reported face begins with the marker, in particular when
    the system reports no face at all, the returned vector is empty and so
    is the global set. *)
Theorem GetSystemFonts_only_vertical faces g :
  (∀ f, f ∈ faces → nth 0 (lfFaceName f) 0%Z = vertical_marker) →
  GetSystemFonts faces g = ([], []).
Proof.
  intros Hvert. unfold GetSystemFonts, set_clear.
  assert (EnumFontFamiliesExW faces EnumFontFamExProc [] = []) as ->; [|done].
  destruct (EnumFontFamiliesExW faces EnumFontFamExProc []) as [|name rest] eqn:E;
    [done|exfalso].
  assert (name ∈ EnumFontFamiliesExW faces EnumFontFamExProc []) as Hin
    by (rewrite E; apply list_elem_of_here).
  apply elem_of_EnumFontFamiliesExW in Hin as [Hin|(f & Hf & Hnv & _)].
  - by apply elem_of_nil in Hin.
  - by apply Hnv, Hvert.
Qed.

Lemma GetSystemFonts_only_vertical_witness :
  (∀ f, f ∈ vertical_faces → nth 0 (lfFaceName f) 0%Z = vertical_marker) ∧
  GetSystemFonts vertical_faces [L "stale"] = ([], []).
Proof.
  assert (∀ f, f ∈ vertical_faces → nth 0 (lfFaceName f) 0%Z = vertical_marker)
    as Hvert.
  { intros f Hf. unfold vertical_faces in Hf. rewrite !elem_of_cons in Hf.
    destruct Hf as [->|[->|Hf]]; [reflexivity..|]. by apply elem_of_nil in Hf. }
  split; [exact Hvert|].
  exact (GetSystemFonts_only_vertical vertical_faces [L "stale"] Hvert).
Defined.

Lemma utf8_encode_no_nul cp : cp ≠ 0%Z → 0%Z ∉ utf8_encode cp.
Proof.
  intros Hcp. unfold utf8_encode.
  destruct (Z.ltb_spec cp 0x80), (Z.ltb_spec cp 0x800), (Z.ltb_spec cp 0x10000);
    try lia; rewrite ?not_elem_of_cons; repeat split;
    try apply not_elem_of_nil; euclid.
Qed.

Lemma utf16_decode_no_nul_bounded (n : nat) ws :
  length ws ≤ n → 0%Z ∉ ws → 0%Z ∉ utf16_decode ws.
Proof.
  revert ws. induction n as [|n IH]; intros ws Hlen.
  { destruct ws; [done|simpl in Hlen; lia]. }
  destruct ws as [|u rest]; [done|]. simpl in Hlen.
  intros [Hu Hrest]%not_elem_of_cons.
  cbn [utf16_decode]. destruct (is_high_surrogate u) eqn:Hhi.
  - apply is_high_surrogate_spec in Hhi. destruct rest as [|v rest'].
    + by intros [=]%list_elem_of_singleton.
    + apply not_elem_of_cons in Hrest as Hrest'. destruct Hrest' as [Hv Hrest'].
      simpl in Hlen. destruct (is_low_surrogate v) eqn:Hlo.
      * apply is_low_surrogate_spec in Hlo. apply not_elem_of_cons. split; [lia|].
        apply IH; [lia|done].
      * apply not_elem_of_cons. split; [done|]. apply IH; [simpl; lia|done].
  - destruct (is_low_surrogate u); apply not_elem_of_cons;
      (split; [done|apply IH; [lia|done]]).
Qed.

Lemma utf16_decode_no_nul ws : 0%Z ∉ ws → 0%Z ∉ utf16_decode ws.
Proof. by apply (utf16_decode_no_nul_bounded (length ws)). Qed.

Lemma utf8_of_wide_no_nul ws : 0%Z ∉ utf8_of_wide ws.
Proof.
  unfold utf8_of_wide.
  pose proof (utf16_decode_no_nul (c_str ws) (c_str_no_nul ws)) as Hcps.
  induction (utf16_decode (c_str ws)) as [|cp cps IH]; simpl; [apply not_elem_of_nil|].
  apply not_elem_of_cons in Hcps as [Hcp Hcps].
  apply not_elem_of_app. split; [apply utf8_encode_no_nul; congruence|by apply IH].
Qed.

(** X12: No entry of the returned vector contains a NUL byte: the name is
    read up to its first NUL, no code point of it is zero, and UTF-8 has a
    zero byte for the code point zero only.  So the length each
    [std::string] records is the length of the C string it holds. *)
Theorem GetSystemFonts_entries_without_NUL faces g :
  Forall (λ entry, 0%Z ∉ entry) (GetSystemFonts faces g).1.
Proof.
  rewrite GetSystemFonts_result. apply Forall_forall.
  intros entry (name & -> & _)%list_elem_of_fmap. apply utf8_of_wide_no_nul.
Qed.

Lemma utf8_of_wide_ascii ws :
  forallb is_ascii ws = true → utf8_of_wide ws = ws.
Proof.
  intros Hascii. unfold utf8_of_wide.
  assert (c_str ws = ws) as ->.
  { apply c_str_id. intros Hin. rewrite forallb_forall in Hascii.
    apply list_elem_of_In, Hascii in Hin. discriminate Hin. }
  induction ws as [|u rest IH]; [done|].
  cbn [forallb] in Hascii. apply andb_true_iff in Hascii as [Hu Hrest].
  unfold is_ascii in Hu. apply andb_true_iff in Hu as [Hu1 Hu2].
  apply Z.ltb_lt in Hu1, Hu2.
  cbn [utf16_decode].
  assert (is_high_surrogate u = false) as ->
    by (apply not_true_is_false; rewrite is_high_surrogate_spec; lia).
  assert (is_low_surrogate u = false) as ->
    by (apply not_true_is_false; rewrite is_low_surrogate_spec; lia).
  cbn [map concat]. rewrite IH by done. unfold utf8_encode.
  by destruct (Z.ltb_spec u 0x80); [|lia].
Qed.

(** X13: ASCII face names come back unchanged: when the name of every reported
    face consists of 7-bit characters, the returned UTF-8 strings are,
    value for value, the wide names held in the set. *)
Theorem GetSystemFonts_ascii_unchanged faces g :
  (∀ f, f ∈ faces → forallb is_ascii (face_name f) = true) →
  (GetSystemFonts faces g).1 = (GetSystemFonts faces g).2.
Proof.
  intros Hascii. rewrite GetSystemFonts_result. unfold GetSystemFonts, set_clear.
  cbn [snd]. rewrite <- (list_fmap_id (EnumFontFamiliesExW faces EnumFontFamExProc []))
    at 2.
  apply list_fmap_ext. intros i name Hi. simpl.
  apply list_elem_of_lookup_2, elem_of_EnumFontFamiliesExW in Hi
    as [Hin|(f & Hf & _ & ->)]; [by apply elem_of_nil in Hin|].
  by apply utf8_of_wide_ascii, Hascii.
Qed.

Lemma GetSystemFonts_ascii_unchanged_witness :
  (∀ f, f ∈ sample_faces → forallb is_ascii (face_name f) = true) ∧
  (GetSystemFonts sample_faces []).1 = [L "Arial"; L "Consolas"; L "SimSun"].
Proof.
  assert (∀ f, f ∈ sample_faces → forallb is_ascii (face_name f) = true) as Hascii.
  { intros f Hf. unfold sample_faces in Hf. rewrite !elem_of_cons in Hf.
    destruct Hf as [->|[->|[->|[->|[->|Hf]]]]]; [reflexivity..|].
    by apply elem_of_nil in Hf. }
  split; [exact Hascii|].
  rewrite (GetSystemFonts_ascii_unchanged sample_faces [] Hascii). reflexivity.
Defined.

End catalog_contents.

Section catalog_order.
Import FlutterWindow Examples.
Implicit Types (f : LOGFONTW) (faces : list LOGFONTW) (g : list (list Z))
  (a b p ws : list Z) (u cp : Z).

Lemma wstring_lt_app_same p a b : wstring_lt (p ++ a) (p ++ b) = wstring_lt a b.
Proof. induction p as [|c p IH]; simpl; [done|]. by rewrite Z.ltb_irrefl. Qed.

Lemma wstring_lt_nil_nonempty b : b ≠ [] → wstring_lt [] b = true.
Proof. by destruct b. Qed.

(** UTF-8 keeps the order of code points: a smaller code point encodes to
    bytes that come first, whatever follows. *)
Lemma utf8_encode_mono cp1 cp2 r1 r2 :
  (0 ≤ cp1 < cp2)%Z →
  wstring_lt (utf8_encode cp1 ++ r1) (utf8_encode cp2 ++ r2) = true.
Proof.
  intros Hlt. unfold utf8_encode.
  destruct (Z.ltb_spec cp1 0x80), (Z.ltb_spec cp1 0x800), (Z.ltb_spec cp1 0x10000);
    try lia;
    destruct (Z.ltb_spec cp2 0x80), (Z.ltb_spec cp2 0x800), (Z.ltb_spec cp2 0x10000);
    try lia; cbn [app wstring_lt];
    repeat match goal with
           | |- context [Z.ltb ?x ?y] => destruct (Z.ltb_spec x y)
           end;
    first [ reflexivity | exfalso; euclid ].
Qed.

Lemma utf8_concat_mono l1 l2 :
  Forall (λ cp, 0 ≤ cp)%Z l1 → wstring_lt l1 l2 = true →
  wstring_lt (concat (map utf8_encode l1)) (concat (map utf8_encode l2)) = true.
Proof.
  revert l2. induction l1 as [|c1 l1 IH]; intros [|c2 l2] Hpos; simpl; try done.
  - intros _. destruct (utf8_encode c2) eqn:E; [|done].
    by apply utf8_encode_nonempty in E.
  - apply Forall_cons in Hpos as [Hc1 Hpos].
    destruct (Z.ltb_spec c1 c2); [intros _; apply utf8_encode_mono; lia|].
    destruct (Z.ltb_spec c2 c1); [done|].
    assert (c1 = c2) as -> by lia. rewrite wstring_lt_app_same. by apply IH.
Qed.

Lemma is_bmp_scalar_spec u :
  is_bmp_scalar u = true →
  (0 ≤ u)%Z ∧ is_high_surrogate u = false ∧ is_low_surrogate u = false.
Proof.
  unfold is_bmp_scalar. rewrite !andb_true_iff, !negb_true_iff, Z.leb_le.
  tauto.
Qed.

Lemma utf16_decode_scalars ws :
  forallb is_bmp_scalar ws = true → utf16_decode ws = ws.
Proof.
  induction ws as [|u rest IH]; [done|]. cbn [forallb utf16_decode].
  intros [Hu Hrest]%andb_true_iff.
  apply is_bmp_scalar_spec in Hu as (_ & -> & ->). by rewrite IH.
Qed.

Lemma utf8_of_wide_mono a b :
  forallb is_bmp_scalar a = true → forallb is_bmp_scalar b = true →
  0%Z ∉ a → 0%Z ∉ b →
  wstring_lt a b = true → wstring_lt (utf8_of_wide a) (utf8_of_wide b) = true.
Proof.
  intros Ha Hb Hza Hzb Hlt. unfold utf8_of_wide.
  rewrite !c_str_id, !utf16_decode_scalars by done.
  apply utf8_concat_mono; [|done].
  apply Forall_forall. intros u Hu. rewrite forallb_forall in Ha.
  apply list_elem_of_In, Ha in Hu. by apply is_bmp_scalar_spec in Hu as [? _].
Qed.

Lemma StronglySorted_fmap_on {A B} (R : relation A) (R' : relation B) (h : A → B)
    (l : list A) :
  (∀ x y, x ∈ l → y ∈ l → R x y → R' (h x) (h y)) →
  StronglySorted R l → StronglySorted R' (h <$> l).
Proof.
  intros Hmono Hsorted. induction Hsorted as [|x l Hl IH Hx]; simpl; constructor.
  - apply IH. intros y z Hy Hz. apply Hmono; by apply list_elem_of_further.
  - apply Forall_fmap, Forall_forall. intros y Hy. rewrite Forall_forall in Hx.
    apply Hmono; [apply list_elem_of_here|by apply list_elem_of_further|by apply Hx].
Qed.

(** X14: The returned list is sorted: when no reported face name contains a
    surrogate, the UTF-8 entries are in strictly increasing byte order (the
    order of [std::string::operator<] on unsigned bytes), because the set
    orders the wide names by code unit and the conversion keeps that
    order. *)
Theorem GetSystemFonts_sorted_bytes faces g :
  (∀ f, f ∈ faces → forallb is_bmp_scalar (face_name f) = true) →
  StronglySorted wlt (GetSystemFonts faces g).1.
Proof.
  intros Hscalar. rewrite GetSystemFonts_result.
  eapply StronglySorted_fmap_on;
    [|apply EnumFontFamiliesExW_sorted; constructor].
  intros x y Hx Hy Hlt.
  apply elem_of_EnumFontFamiliesExW in Hx
    as [Hin|(fx & Hfx & _ & ->)]; [by apply elem_of_nil in Hin|].
  apply elem_of_EnumFontFamiliesExW in Hy
    as [Hin|(fy & Hfy & _ & ->)]; [by apply elem_of_nil in Hin|].
  apply utf8_of_wide_mono; [by apply Hscalar..| | |done]; apply c_str_no_nul.
Qed.

Lemma GetSystemFonts_sorted_bytes_witness :
  (∀ f, f ∈ sample_faces_reordered → forallb is_bmp_scalar (face_name f) = true) ∧
  StronglySorted wlt (GetSystemFonts sample_faces_reordered []).1.
Proof.
  assert (∀ f, f ∈ sample_faces_reordered →
               forallb is_bmp_scalar (face_name f) = true) as Hscalar.
  { intros f Hf. unfold sample_faces_reordered in Hf. rewrite !elem_of_cons in Hf.
    destruct Hf as [->|[->|[->|[->|[->|Hf]]]]]; [reflexivity..|].
    by apply elem_of_nil in Hf. }
  split; [exact Hscalar|].
  exact (GetSystemFonts_sorted_bytes sample_faces_reordered [] Hscalar).
Defined.

End catalog_order.

Section channel_and_messages.
Import FlutterWindow Examples.
Implicit Types (faces : list LOGFONTW) (g : list (list Z)) (calls : list string)
  (ctl : option (Z → Z → Z → Z → option Z)) (base : Z → Z → Z → Z → Z).

(** X15: Over any sequence of calls on the channel, with the system reporting
    the same faces throughout, every [getSystemFonts] call is answered with
    success and the same payload, the one a call on an empty global set
    gives, and every other call with [NotImplemented]: no call changes what
    a later call is answered. *)
Theorem serve_calls_history_free faces calls g :
  (serve_calls faces calls g).1 =
  map (λ method_name, if String.eqb method_name "getSystemFonts"
                      then Success (font_payload faces) else NotImplemented) calls.
Proof.
  revert g. induction calls as [|m rest IH]; intros g; [done|].
  cbn [serve_calls map]. unfold system_fonts_handler at 1.
  destruct (String.eqb m "getSystemFonts").
  - pose proof (GetSystemFonts_result faces g) as Hres.
    destruct (GetSystemFonts faces g) as [fonts g'] eqn:E. cbn [fst] in Hres.
    specialize (IH g'). destruct (serve_calls faces rest g') as [rs g''].
    cbn [fst] in *. rewrite IH. f_equal. unfold font_payload.
    by rewrite GetSystemFonts_result, Hres.
  - specialize (IH g). destruct (serve_calls faces rest g) as [rs g''].
    cbn [fst] in *. by rewrite IH.
Qed.

(** X16: A message that is neither the font-change notification nor the wake
    Signal never reloads fonts and never invokes [wakeUp], with or without
    a controller: when a controller is present and its hook produces a
    result, that result is returned and nothing else happens; in every other
    case, the null controller included, the base handler alone runs and
    gives the result. *)
Theorem MessageHandler_other_codes ctl base hwnd message wparam lparam :
  message ≠ WM_FONTCHANGE → message ≠ kWakeUpMessage →
  MessageHandler ctl base hwnd message wparam lparam =
    match ctl with
    | Some hook =>
        match hook hwnd message wparam lparam with
        | Some result => Some ([], result)
        | None => Some ([BaseMessageHandler hwnd message wparam lparam],
                        base hwnd message wparam lparam)
        end
    | None => Some ([BaseMessageHandler hwnd message wparam lparam],
                    base hwnd message wparam lparam)
    end.
Proof.
  intros Hfont Hwake. unfold MessageHandler.
  destruct (Z.eqb_spec message WM_FONTCHANGE) as [|_]; [done|].
  destruct (Z.eqb_spec message kWakeUpMessage) as [|_]; [done|].
  destruct ctl as [hook|]; [|done].
  by destruct (hook hwnd message wparam lparam).
Qed.

Lemma MessageHandler_other_codes_witness :
  MessageHandler None base_returns_0 1 0x000F 0 0 =
    Some ([BaseMessageHandler 1 0x000F 0 0], 0%Z).
Proof.
  apply (MessageHandler_other_codes None base_returns_0 1 0x000F 0 0); discriminate.
Defined.

(** X17: After [OnDestroy] the member is null whatever it was, so the handler
    asks no hook any more: a font-change notification or a wake Signal that
    still arrives makes it dereference the null controller, and every other
    message goes to the base handler alone. *)
Theorem MessageHandler_after_OnDestroy ctl base hwnd message wparam lparam :
  (OnDestroy ctl).2 = [BaseOnDestroy] ∧
  MessageHandler (OnDestroy ctl).1 base hwnd message wparam lparam =
    if ((message =? WM_FONTCHANGE) || (message =? kWakeUpMessage))%Z then None
    else Some ([BaseMessageHandler hwnd message wparam lparam],
               base hwnd message wparam lparam).
Proof.
  split; [done|].
  assert ((OnDestroy ctl).1 = None) as -> by (by destruct ctl).
  unfold MessageHandler.
  destruct (message =? WM_FONTCHANGE)%Z; [done|].
  by destruct (message =? kWakeUpMessage)%Z.
Qed.

End channel_and_messages.

Section exit_codes.
Import Main Examples.
Implicit Types (env : StartupEnv) (k : gmap (list Z) nat) (d : Desktop).

(** X8: The exit code of every run: [EXIT_FAILURE] exactly when the start is
    not taken for a later instance (the last-error after [CreateMutex] is
    not [ERROR_ALREADY_EXISTS]) and the window cannot be created;
    [EXIT_SUCCESS] in every other case.  The window is attempted exactly
    when the start is not taken for a later instance, and the wake path is
    entered exactly when it is. *)
Theorem wWinMain_exit_code env k d :
  let later :=
    ((CreateMutex k (mutex_failure env) (mutex_handle env) kSingleInstanceMutexName).2
     =? ERROR_ALREADY_EXISTS)%Z in
  let o := wWinMain env k d in
  exit_code o = (if later || window_create_ok env then EXIT_SUCCESS else EXIT_FAILURE) ∧
  (EvWakeUpExistingWindow ∈ trace o ↔ later = true) ∧
  (EvWindowCreate (L "NAI Launcher") (window_create_ok env) ∈ trace o ↔ later = false).
Proof.
  unfold wWinMain.
  destruct (CreateMutex k (mutex_failure env) (mutex_handle env)
              kSingleInstanceMutexName) as [[k1 h] e].
  cbn [snd]. unfold console_events.
  destruct (e =? ERROR_ALREADY_EXISTS)%Z, (window_create_ok env), h as [h|],
    (negb (attach_console_ok env) && debugger_present env);
    cbn [orb negb exit_code trace app]; (split; [done|]);
    split; split; try done; intros Hin;
    repeat (apply elem_of_cons in Hin as [Hin|Hin]; [discriminate Hin|]);
    try (by apply elem_of_nil in Hin);
    try (rewrite !elem_of_cons; by eauto 10).
  all: apply elem_of_app in Hin as [Hin|Hin];
    [|repeat (apply elem_of_cons in Hin as [Hin|Hin]; [discriminate Hin|]);
      by apply elem_of_nil in Hin].
  all: clear -Hin; induction (pending_messages env) as [|m rest IH]; simpl in Hin;
    repeat (apply elem_of_cons in Hin as [Hin|Hin]; [discriminate Hin|]);
    [by apply elem_of_nil in Hin|by apply IH].
Qed.

End exit_codes.
